(** * sbreitf1/exec: the command-line tokenizer [Parse] and its encoder
      [GetCommandLine], embedded from [exec.go].

    Conventions of the embedding.

    - A Go [string] holding Unicode text is represented by the sequence of
      its codepoints, that is by the value of [[]rune(str)]; a [rune] is an
      integer.  On such strings [[]rune(str)] is the identity and
      [strings.Builder.WriteRune] appends one codepoint.
    - [len(str)] is the length in bytes of the UTF-8 form; it is computed
      from the width of every codepoint ([runeWidth]).
    - Go's [int] is modelled by [Z]; the only arithmetic on indices is
      [i - 1] and [len(runes) - 1], which cannot overflow.
    - A Go function with several results returns a tuple; a [nil] slice and
      an empty slice are both the empty list; a [nil] error is [None].
    - The callback of [MockExecutor] is an effectful Go closure: it is a
      function that threads a world of type [W]. *)

From Stdlib Require Import String Ascii ZArith List Bool Lia.
Import ListNotations.
Open Scope Z_scope.

(** ** Runes and strings *)

Definition rune := Z.
Definition gostring := list rune.

(** Codepoints of an ASCII literal. *)
Definition runes (s : string) : gostring :=
  map (fun a => Z.of_N (N_of_ascii a)) (list_ascii_of_string s).

Definition eol : rune := 0.
Definition esc : rune := 92.
Definition sqt : rune := 39.
Definition dqt : rune := 34.
(** The separator [' '] written by [GetCommandLine]. *)
Definition sp : rune := 32.

(** [unicode.IsSpace]: the Latin-1 cases, then the White_Space table. *)
Definition IsSpace (r : rune) : bool :=
  if (0 <=? r) && (r <=? 255) then
    (r =? 9) || (r =? 10) || (r =? 11) || (r =? 12) || (r =? 13) ||
    (r =? 32) || (r =? 133) || (r =? 160)
  else
    (r =? 5760) || ((8192 <=? r) && (r <=? 8202)) || (r =? 8232) ||
    (r =? 8233) || (r =? 8239) || (r =? 8287) || (r =? 12288).

(** Number of bytes [WriteRune] writes for one rune ([utf8.AppendRune]):
    a rune that is not a scalar value is written as U+FFFD, three bytes. *)
Definition runeWidth (r : rune) : Z :=
  if (0 <=? r) && (r <=? 127) then 1
  else if (0 <=? r) && (r <=? 2047) then 2
  else if (r <? 0) || (1114111 <? r) || ((55296 <=? r) && (r <=? 57343)) then 3
  else if r <=? 65535 then 3
  else 4.

(** [len(str)], in bytes. *)
Fixpoint len (str : gostring) : Z :=
  match str with
  | [] => 0
  | r :: rest => runeWidth r + len rest
  end.

(** [strings.Builder]: the text written so far. *)
Definition Builder := gostring.
Definition WriteRune (sb : Builder) (r : rune) : Builder := sb ++ [r].
Definition WriteString (sb : Builder) (s : gostring) : Builder := sb ++ s.

(** ** Errors ([github.com/sbreitf1/errors]): a kind and a message *)

(** An error kind, as made by [errors.New]: its message template. *)
Record ErrorKind := New { template : string }.

(** An error instance, as made by [Make] and altered by [Msg]. *)
Record Error := mkError { kind : ErrorKind; message : string }.

Definition Make (k : ErrorKind) : Error := mkError k (template k).

Definition Msg (e : Error) (m : string) : Error := mkError (kind e) m.

Definition ErrRun : ErrorKind := New "Could not execute command".
Definition ErrReturnCode : ErrorKind := New "Process returned with code %d".
Definition ErrParse : ErrorKind := New "Unable to parse command line".

Definition errInvalidZero : Error :=
  Msg (Make ErrParse) "Invalid 0 char in command line".
Definition errUnexpectedEnd : Error :=
  Msg (Make ErrParse) "Unexpected end of command line".

(** ** The tokenizer: [split] and [Parse] *)

Inductive parseState := parseDefault | parseSingleQuote | parseDoubleQuote.

Definition isDefault (s : parseState) : bool :=
  match s with parseDefault => true | _ => false end.

(** The local variables of [split]. *)
Record scanner := mkScanner {
  parts : list gostring;
  state : parseState;
  escape : bool;
  sb : Builder;
  partStart : Z
}.

Definition set_state (s : parseState) (st : scanner) : scanner :=
  mkScanner (parts st) s (escape st) (sb st) (partStart st).
Definition set_escape (e : bool) (st : scanner) : scanner :=
  mkScanner (parts st) (state st) e (sb st) (partStart st).
Definition set_sb (b : Builder) (st : scanner) : scanner :=
  mkScanner (parts st) (state st) (escape st) b (partStart st).
Definition set_partStart (p : Z) (st : scanner) : scanner :=
  mkScanner (parts st) (state st) (escape st) (sb st) p.
(** [parts = append(parts, sb.String()); sb.Reset()] *)
Definition flush (st : scanner) : scanner :=
  mkScanner (parts st ++ [sb st]) (state st) (escape st) [] (partStart st).

(** The [switch state] statement of the loop body, at index [i], rune [r]. *)
Definition switch (i : Z) (r : rune) (st : scanner) : scanner :=
  match state st with
  | parseDefault =>
      if escape st then
        set_sb (WriteRune (sb st) r) (set_escape false st)
      else if IsSpace r || (r =? eol) then
        set_partStart i (if partStart st <? i - 1 then flush st else st)
      else if r =? sqt then set_state parseSingleQuote st
      else if r =? dqt then set_state parseDoubleQuote st
      else if r =? esc then set_escape true st
      else set_sb (WriteRune (sb st) r) st
  | parseSingleQuote =>
      if r =? sqt then set_state parseDefault st
      else set_sb (WriteRune (sb st) r) st
  | parseDoubleQuote =>
      if escape st then
        let st1 := set_escape false st in
        let st2 :=
          if negb (r =? esc) && negb (r =? dqt)
          then set_sb (WriteRune (sb st1) esc) st1 else st1 in
        set_sb (WriteRune (sb st2) r) st2
      else if r =? dqt then set_state parseDefault st
      else if r =? esc then set_escape true st
      else set_sb (WriteRune (sb st) r) st
  end.

(** One iteration of [for i, r := range runes]: the sentinel check, which
    may return an error, then the switch.  [n] is [len(runes)]. *)
Definition body (n i : Z) (r : rune) (st : scanner) : Error + scanner :=
  if r =? eol then
    if i <? n - 1 then inl errInvalidZero
    else if negb (isDefault (state st)) || escape st then inl errUnexpectedEnd
    else inr (switch i r st)
  else inr (switch i r st).

Fixpoint loop (n i : Z) (rs : list rune) (st : scanner) : Error + scanner :=
  match rs with
  | [] => inr st
  | r :: rest =>
      match body n i r st with
      | inl e => inl e
      | inr st' => loop n (i + 1) rest st'
      end
  end.

(** The locals before the loop: no parts, [parseDefault], no escape, an
    empty builder, [partStart := 0]. *)
Definition initial : scanner := mkScanner [] parseDefault false [] 0.

Definition split (str : gostring) : list gostring * option Error :=
  let rs := str ++ [eol] in
  match loop (Z.of_nat (length rs)) 0 rs initial with
  | inl e => ([], Some e)
  | inr st => (parts st, None)
  end.

Definition Parse (commandLine : gostring)
  : gostring * list gostring * option Error :=
  match split commandLine with
  | (_, Some err) => ([], [], Some err)
  | ([], None) => ([], [], Some errUnexpectedEnd)
  | ([p0], None) => (p0, [], None)
  | (p0 :: rest, None) => (p0, rest, None)
  end.

(** ** The encoder: [Quote] and [GetCommandLine] *)

Definition quoteRaw (str : gostring) : gostring :=
  fold_left
    (fun sb r =>
       let sb1 :=
         if IsSpace r || (r =? sqt) || (r =? dqt) || (r =? esc)
         then WriteRune sb esc else sb in
       WriteRune sb1 r)
    str [].

Definition quoteSingle (str : gostring) : gostring :=
  let body :=
    fold_left
      (fun sb r =>
         if r =? sqt
         then WriteRune (WriteRune (WriteRune (WriteRune sb sqt) esc) sqt) sqt
         else WriteRune sb r)
      str (WriteRune [] sqt) in
  WriteRune body sqt.

Definition quoteDouble (str : gostring) : gostring :=
  let body :=
    fold_left
      (fun sb r =>
         let sb1 := if (r =? dqt) || (r =? esc) then WriteRune sb esc else sb in
         WriteRune sb1 r)
      str (WriteRune [] dqt) in
  WriteRune body dqt.

Definition Quote (str : gostring) : gostring :=
  if len str =? 0 then [dqt; dqt]
  else
    let raw := quoteRaw str in
    let single := quoteSingle str in
    let double := quoteDouble str in
    if len raw <? len double then
      if len single <? len raw then single else raw
    else if len single <? len double then single
    else double.

Definition GetCommandLine (command : gostring) (args : list gostring) : gostring :=
  fold_left
    (fun sb arg => WriteString (WriteRune sb sp) (Quote arg))
    args (WriteString [] (Quote command)).

(** ** [MockExecutor] *)

Section Executor.
Variable W : Type.

(** Result of a run: output, exit code, error. *)
Definition result := (gostring * Z * option Error)%type.

Definition callback := gostring -> list gostring -> W -> result * W.

Record MockExecutor := NewMockExecutor { RunCallback : callback }.

Definition MockExecutor_RunLine (e : MockExecutor) (commandLine : gostring)
  (w : W) : result * W :=
  match Parse commandLine with
  | (_, _, Some err) => (([], 0, Some err), w)
  | (command, args, None) => RunCallback e command args w
  end.

Definition MockExecutor_Run (e : MockExecutor) (command : gostring)
  (args : list gostring) (w : W) : result * W :=
  RunCallback e command args w.

(** A callback instrumented with a counter of its invocations. *)
Definition counted (cb : callback)
  : gostring -> list gostring -> W * nat -> result * (W * nat) :=
  fun command args wn =>
    let (res, w') := cb command args (fst wn) in (res, (w', S (snd wn))).
End Executor.

Arguments RunCallback {W} _ _ _ _.
Arguments NewMockExecutor {W} _.
Arguments MockExecutor_RunLine {W} _ _ _.
Arguments MockExecutor_Run {W} _ _ _ _.
Arguments counted {W} _ _ _ _.


(** ** Auxiliary definitions of the statements *)

(** What each of the three encoders writes for one rune. *)
Definition needsEscape (r : rune) : bool :=
  IsSpace r || (r =? sqt) || (r =? dqt) || (r =? esc).
Definition rawOf (r : rune) : gostring :=
  if needsEscape r then [esc; r] else [r].
Definition singleOf (r : rune) : gostring :=
  if r =? sqt then [sqt; esc; sqt; sqt] else [r].
Definition doubleOf (r : rune) : gostring :=
  if (r =? dqt) || (r =? esc) then [esc; r] else [r].

(** The selection rule in the words of the specification, for a measure
    [size] of the length of a candidate. *)
Definition select (size : gostring -> Z) (raw single double : gostring)
  : gostring :=
  let winner := if size raw >=? size double then double else raw in
  if size single <? size winner then single else winner.

(** A rune that [quoteRaw] writes unchanged. *)
Definition plain (r : rune) : bool := negb (needsEscape r).

(** [run i rs st] iterates the switch statement over [rs], the first rune
    being at index [i]: the loop of [split] on a stretch of the line where
    the sentinel check does not fire. *)
Fixpoint run (i : Z) (rs : list rune) (st : scanner) : scanner :=
  match rs with
  | [] => st
  | r :: rest => run (i + 1) rest (switch i r st)
  end.

Definition hasEol (rs : list rune) : bool := existsb (fun r => r =? eol) rs.

Definition eolFree (s : gostring) : Prop := ~ In eol s.

(** The scanner after the codepoints of the line, before the sentinel. *)
Definition scan (line : gostring) : scanner := run 0 line initial.

(** The tokens accumulated once the sentinel has been processed as well. *)
Definition tokens (line : gostring) : list gostring :=
  parts (run 0 (line ++ [eol]) initial).

(** Neither the emitted parts nor the builder hold U+0000. *)
Definition clean (st : scanner) : Prop :=
  Forall eolFree (parts st) /\ eolFree (sb st).

(** A text between double quotes. *)
Definition dq (s : gostring) : gostring := [dqt] ++ s ++ [dqt].

(** The lines of the examples. *)
Definition exampleArgs : list gostring :=
  [runes "blub"; []; runes "foo bar"; dqt :: runes "test  ";
   runes "blub''\"; [dqt; dqt; dqt]].

Definition exampleLine : gostring :=
  runes "newcommand blub " ++ [dqt; dqt] ++ runes " foo\ bar '" ++ [dqt]
  ++ runes "test  ' " ++ [dqt] ++ runes "blub''\\" ++ [dqt] ++ runes " '"
  ++ [dqt; dqt; dqt] ++ runes "'".

(** The lines of the quote examples. *)
Definition combinedQuotesLine : gostring :=
  runes "cmd -d " ++ [dqt] ++ runes "asdf" ++ [dqt] ++ runes "'qwert'foo'bar'\ "
  ++ [dqt] ++ runes "test" ++ [dqt; dqt] ++ runes "1234" ++ [dqt] ++ runes "\ ".

Definition emptyQuotesLine : gostring :=
  runes "cmd -d " ++ [dqt; dqt] ++ runes " -m ''".

(** The tokenizer in the words of the specification: the state machine of
    section 4.1 with the explicit flag of section 9.  A token is emitted at
    a boundary exactly when it was opened since the previous boundary, by an
    appended character or by a consumed quote pair; [split] derives that
    from [partStart] and the index instead. *)
Module SpecLexer.

Record lexer := mkLexer {
  emitted : list gostring;
  mode : parseState;
  pending : bool;
  buffer : gostring;
  opened : bool
}.

Definition start : lexer := mkLexer [] parseDefault false [] false.

Definition step (r : rune) (lx : lexer) : lexer :=
  match mode lx with
  | parseDefault =>
      if pending lx then
        mkLexer (emitted lx) parseDefault false (buffer lx ++ [r]) true
      else if IsSpace r || (r =? eol) then
        if opened lx
        then mkLexer (emitted lx ++ [buffer lx]) parseDefault false [] false
        else lx
      else if r =? sqt then
        mkLexer (emitted lx) parseSingleQuote false (buffer lx) (opened lx)
      else if r =? dqt then
        mkLexer (emitted lx) parseDoubleQuote false (buffer lx) (opened lx)
      else if r =? esc then
        mkLexer (emitted lx) parseDefault true (buffer lx) (opened lx)
      else mkLexer (emitted lx) parseDefault false (buffer lx ++ [r]) true
  | parseSingleQuote =>
      if r =? sqt then
        mkLexer (emitted lx) parseDefault (pending lx) (buffer lx) true
      else
        mkLexer (emitted lx) parseSingleQuote (pending lx) (buffer lx ++ [r]) true
  | parseDoubleQuote =>
      if pending lx then
        mkLexer (emitted lx) parseDoubleQuote false
          (if negb (r =? esc) && negb (r =? dqt)
           then buffer lx ++ [esc; r] else buffer lx ++ [r]) true
      else if r =? dqt then
        mkLexer (emitted lx) parseDefault false (buffer lx) true
      else if r =? esc then
        mkLexer (emitted lx) parseDoubleQuote true (buffer lx) (opened lx)
      else
        mkLexer (emitted lx) parseDoubleQuote false (buffer lx ++ [r]) true
  end.

Definition steps (rs : list rune) (lx : lexer) : lexer :=
  fold_left (fun l r => step r l) rs lx.

(** The tokens of a line: the scan of the line and of the sentinel. *)
Definition tokens (line : gostring) : list gostring :=
  emitted (steps (line ++ [eol]) start).

End SpecLexer.

(** [st], about to read index [i], stands for [lx]: same tokens, state,
    escape flag and buffer, and [partStart < i - 1] says that the token is
    open. *)
Definition simulates (i : Z) (st : scanner) (lx : SpecLexer.lexer) : Prop :=
  parts st = SpecLexer.emitted lx /\
  state st = SpecLexer.mode lx /\
  escape st = SpecLexer.pending lx /\
  sb st = SpecLexer.buffer lx /\
  partStart st <= i - 1 /\
  (if isDefault (state st) && negb (escape st)
   then SpecLexer.opened lx = true <-> partStart st < i - 1
   else partStart st < i - 1).

(** Two scanners about to read index [i] that differ at most in a
    [partStart] which, in both, marks the token as open. *)
Definition alike (i : Z) (st st' : scanner) : Prop :=
  parts st = parts st' /\ state st = state st' /\ escape st = escape st' /\
  sb st = sb st' /\
  (partStart st = partStart st'
   \/ (partStart st < i - 1 /\ partStart st' < i - 1)).

(** The lines on which the start value of [partStart] shows: the codepoint
    at index 0 is written to the builder and the one at index 1 (the
    sentinel, on a line of one codepoint) is a boundary. *)
Definition startsWithShortToken (line : gostring) : bool :=
  match line ++ [eol] with
  | r0 :: r1 :: _ =>
      negb (IsSpace r0 || (r0 =? eol) || (r0 =? sqt) || (r0 =? dqt) || (r0 =? esc))
      && (IsSpace r1 || (r1 =? eol))
  | _ => false
  end.

(** Counts the runes of a string that satisfy a test. *)
Definition countRunes (f : rune -> bool) (s : gostring) : Z :=
  Z.of_nat (length (filter f s)).

(** A rune that [quoteDouble] escapes. *)
Definition doubleEscaped (r : rune) : bool := (r =? dqt) || (r =? esc).

(** ** Running commands: [run], [runLine], the executors, [ShouldRun] *)

Module Exec.

(** The error of [cmd.CombinedOutput()], as far as [run] looks at it: an
    [*exec.ExitError], whose [Sys()] is a [syscall.WaitStatus] with its
    [ExitStatus()] or something else, or any other error. *)
Inductive cmdError :=
| ExitError (sys : option Z)
| otherError.

Section Process.
Variable W : Type.

(** [exec.Command(command, args...).CombinedOutput()]: the operating
    system runs the process; it gives the output and an error or none. *)
Variable CombinedOutput :
  gostring -> list gostring -> W -> (gostring * option cmdError) * W.

(** [e.Cause(err)] and [t.Args(code)] of the errors library. *)
Variable Cause : Error -> cmdError -> Error.
Variable Args : ErrorKind -> Z -> ErrorKind.

Definition run (command : gostring) (args : list gostring) (w : W)
  : result * W :=
  let (out, w') := CombinedOutput command args w in
  let (output, err) := out in
  match err with
  | Some e =>
      match e with
      | ExitError (Some exitStatus) => ((output, exitStatus, None), w')
      | _ => ((output, 0, Some (Cause (Make ErrRun) e)), w')
      end
  | None => ((output, 0, None), w')
  end.

Definition runLine (commandLine : gostring) (w : W) : result * W :=
  match Parse commandLine with
  | (_, _, Some err) => (([], 0, Some err), w)
  | (command, args, None) => run command args w
  end.

(** The interface [Executor]. *)
Record Executor := mkExecutor {
  Executor_RunLine : gostring -> W -> result * W;
  Executor_Run : gostring -> list gostring -> W -> result * W
}.

(** [LocalExecutor], whose methods are [runLine] and [run]. *)
Definition NewLocalExecutor : Executor := mkExecutor runLine run.

(** A [MockExecutor] seen through the interface. *)
Definition MockExecutor_Executor (e : MockExecutor W) : Executor :=
  mkExecutor (MockExecutor_RunLine e) (MockExecutor_Run e).

(** The package functions read the variable [DefaultExecutor]. *)
Definition RunLine (DefaultExecutor : Executor) (commandLine : gostring)
  (w : W) : result * W :=
  Executor_RunLine DefaultExecutor commandLine w.

Definition Run (DefaultExecutor : Executor) (command : gostring)
  (args : list gostring) (w : W) : result * W :=
  Executor_Run DefaultExecutor command args w.

Definition ShouldRunLine (DefaultExecutor : Executor) (commandLine : gostring)
  (w : W) : (gostring * option Error) * W :=
  let (res, w') := RunLine DefaultExecutor commandLine w in
  let '(result, code, err) := res in
  match err with
  | Some e => (([], Some e), w')
  | None =>
      if negb (code =? 0)
      then ((result, Some (Make (Args ErrReturnCode code))), w')
      else ((result, None), w')
  end.

Definition ShouldRun (DefaultExecutor : Executor) (command : gostring)
  (args : list gostring) (w : W) : (gostring * option Error) * W :=
  let (res, w') := Run DefaultExecutor command args w in
  let '(result, code, err) := res in
  match err with
  | Some e => (([], Some e), w')
  | None =>
      if negb (code =? 0)
      then ((result, Some (Make (Args ErrReturnCode code))), w')
      else ((result, None), w')
  end.

End Process.

Arguments run {W} _ _ _ _ _.
Arguments runLine {W} _ _ _ _.
Arguments mkExecutor {W} _ _.
Arguments Executor_RunLine {W} _ _ _.
Arguments Executor_Run {W} _ _ _ _.
Arguments NewLocalExecutor {W} _ _.
Arguments MockExecutor_Executor {W} _.
Arguments RunLine {W} _ _ _.
Arguments Run {W} _ _ _ _.
Arguments ShouldRunLine {W} _ _ _ _.
Arguments ShouldRun {W} _ _ _ _ _.

End Exec.

(** A world for examples: the log of the processes started, each of which
    echoes its first argument and exits with status 3; and a callback that
    logs its call and returns the command with the code 7. *)
Definition demoWorld := list (gostring * list gostring).

Definition demoCombinedOutput (command : gostring) (args : list gostring)
  (w : demoWorld) : (gostring * option Exec.cmdError) * demoWorld :=
  ((hd [] args, Some (Exec.ExitError (Some 3))), w ++ [(command, args)]).

Definition demoCause (e : Error) (c : Exec.cmdError) : Error := e.

Definition demoArgs (k : ErrorKind) (code : Z) : ErrorKind := k.

Definition demoCallback : callback demoWorld :=
  fun command args w => ((command, 7, None), w ++ [(command, args)]).

(** The scanner [st] moved [k] indices to the right, behind the already
    emitted parts [ps0]. *)
Definition moved (k : Z) (ps0 : list gostring) (st : scanner) : scanner :=
  mkScanner (ps0 ++ parts st) (state st) (escape st) (sb st) (partStart st + k).

(** The part of a scanner that decides on errors: state and escape flag. *)
Definition phase (st : scanner) : parseState * bool := (state st, escape st).

(** Once a part has been emitted, a boundary directly before index [i]
    has left the builder empty. *)
Definition settled (i : Z) (st : scanner) : Prop :=
  parts st <> [] ->
  partStart st <= i - 1 /\
  (partStart st = i - 1 ->
   sb st = [] /\ state st = parseDefault /\ escape st = false).

(** * Properties *)

(** ** Elementary facts on runes, widths and builders *)

Lemma runeWidth_pos (r : rune) : 0 < runeWidth r.
Proof.
  unfold runeWidth.
  repeat match goal with |- context [if ?b then _ else _] => destruct b end; lia.
Qed.

Lemma len_nonneg (s : gostring) : 0 <= len s.
Proof.
  induction s as [|r s IH]; simpl; [lia|].
  pose proof (runeWidth_pos r); lia.
Qed.

Lemma len_zero_iff (s : gostring) : len s = 0 <-> s = [].
Proof.
  split; [|intros ->; reflexivity].
  destruct s as [|r s]; [reflexivity|]. simpl.
  pose proof (runeWidth_pos r). pose proof (len_nonneg s). lia.
Qed.

Lemma len_app (s t : gostring) : len (s ++ t) = len s + len t.
Proof. induction s as [|r s IH]; simpl; lia. Qed.

Lemma IsSpace_sp : IsSpace sp = true.
Proof. reflexivity. Qed.

(** A loop that only writes to a builder is a [flat_map]. *)
Lemma fold_write (f : rune -> gostring) (s : gostring) (acc : Builder) :
  fold_left (fun b r => b ++ f r) s acc = acc ++ flat_map f s.
Proof.
  revert acc; induction s as [|r s IH]; intros acc; simpl.
  - now rewrite app_nil_r.
  - rewrite IH. now rewrite app_assoc.
Qed.

Lemma fold_left_ext {A B} (f g : A -> B -> A) (l : list B) (a : A) :
  (forall x y, f x y = g x y) -> fold_left f l a = fold_left g l a.
Proof.
  intros E; revert a; induction l as [|y l IH]; intros a; simpl; [reflexivity|].
  now rewrite E, IH.
Qed.

Lemma quoteRaw_flat (s : gostring) : quoteRaw s = flat_map rawOf s.
Proof.
  unfold quoteRaw.
  rewrite (fold_left_ext _ (fun b r => b ++ rawOf r)).
  - now rewrite fold_write.
  - intros b r. unfold rawOf, needsEscape, WriteRune.
    destruct (IsSpace r || (r =? sqt) || (r =? dqt) || (r =? esc));
      [now rewrite <- app_assoc | reflexivity].
Qed.

Lemma quoteSingle_flat (s : gostring) :
  quoteSingle s = sqt :: flat_map singleOf s ++ [sqt].
Proof.
  unfold quoteSingle.
  rewrite (fold_left_ext _ (fun b r => b ++ singleOf r)).
  - now rewrite fold_write.
  - intros b r. unfold singleOf, WriteRune.
    destruct (r =? sqt); [now rewrite <- !app_assoc | reflexivity].
Qed.

Lemma quoteDouble_flat (s : gostring) :
  quoteDouble s = dqt :: flat_map doubleOf s ++ [dqt].
Proof.
  unfold quoteDouble.
  rewrite (fold_left_ext _ (fun b r => b ++ doubleOf r)).
  - now rewrite fold_write.
  - intros b r. unfold doubleOf, WriteRune.
    destruct ((r =? dqt) || (r =? esc)); [now rewrite <- app_assoc | reflexivity].
Qed.

Lemma GetCommandLine_flat (command : gostring) (args : list gostring) :
  GetCommandLine command args
  = Quote command ++ flat_map (fun arg => sp :: Quote arg) args.
Proof.
  unfold GetCommandLine, WriteString, WriteRune. simpl.
  generalize (Quote command) as acc.
  induction args as [|a args IH]; intros acc; simpl.
  - now rewrite app_nil_r.
  - rewrite IH. now rewrite <- !app_assoc.
Qed.

(** ** The scan without its sentinel check *)

Lemma run_app (xs ys : list rune) (i : Z) (st : scanner) :
  run i (xs ++ ys) st = run (i + Z.of_nat (length xs)) ys (run i xs st).
Proof.
  revert i st; induction xs as [|x xs IH]; intros i st.
  - simpl. f_equal. lia.
  - cbn [app run length]. rewrite IH. f_equal. lia.
Qed.

Lemma hasEol_In (rs : list rune) : hasEol rs = true <-> In eol rs.
Proof.
  unfold hasEol. rewrite existsb_exists. split.
  - intros (r & Hin & E). apply Z.eqb_eq in E. now subst.
  - intros Hin. exists eol. split; [assumption | reflexivity].
Qed.

Lemma hasEol_false (rs : list rune) : hasEol rs = false <-> ~ In eol rs.
Proof.
  rewrite <- hasEol_In. destruct (hasEol rs); split; congruence.
Qed.

(** The loop of [split] on a line followed by the sentinel: it stops on the
    first U+0000 of the line; otherwise it runs the switch over the line,
    checks the state at the sentinel and runs the switch on the sentinel. *)
Lemma loop_sentinel (xs : list rune) (n i : Z) (st : scanner) :
  n = i + Z.of_nat (length xs) + 1 ->
  loop n i (xs ++ [eol]) st =
    if hasEol xs then inl errInvalidZero
    else
      let st' := run i xs st in
      if negb (isDefault (state st')) || escape st' then inl errUnexpectedEnd
      else inr (switch (n - 1) eol st').
Proof.
  revert i st; induction xs as [|x xs IH]; intros i st Hn.
  - cbn [app loop hasEol existsb run length]. unfold body.
    change (eol =? eol) with true. cbv iota.
    replace (i <? n - 1) with false by (simpl in Hn; symmetry; apply Z.ltb_ge; lia).
    replace (n - 1) with i by (simpl in Hn; lia).
    cbv zeta. destruct (negb (isDefault (state st)) || escape st); reflexivity.
  - cbn [app loop hasEol existsb run]. unfold body.
    destruct (x =? eol) eqn:Ex.
    + replace (i <? n - 1) with true
        by (symmetry; apply Z.ltb_lt; cbn [length] in Hn; lia).
      reflexivity.
    + cbn [orb]. fold (hasEol xs). apply IH. cbn [length] in Hn. lia.
Qed.

(** [split], through [loop_sentinel]. *)
Lemma split_unfold (line : gostring) :
  split line =
    if hasEol line then ([], Some errInvalidZero)
    else
      let st := run 0 line initial in
      if negb (isDefault (state st)) || escape st
      then ([], Some errUnexpectedEnd)
      else (parts (switch (Z.of_nat (length line)) eol st), None).
Proof.
  unfold split. cbv zeta.
  rewrite (loop_sentinel line _ 0 initial)
    by (rewrite length_app; cbn [length]; lia).
  destruct (hasEol line); [reflexivity|]. cbv zeta.
  destruct (negb (isDefault (state (run 0 line initial)))
            || escape (run 0 line initial)); [reflexivity|].
  do 3 f_equal. rewrite length_app. cbn [length]. lia.
Qed.

(** ** The switch, case by case *)

Ltac rune_cases :=
  repeat match goal with
  | H : (_ =? _) = true |- _ => apply Z.eqb_eq in H; subst
  | H : (_ =? _) = false |- _ => apply Z.eqb_neq in H
  end.

Lemma needsEscape_false (r : rune) :
  needsEscape r = false ->
  IsSpace r = false /\ (r =? sqt) = false /\ (r =? dqt) = false /\ (r =? esc) = false.
Proof.
  unfold needsEscape. intros H.
  repeat (apply orb_false_iff in H; destruct H as [H ?]). auto.
Qed.

Section Switch.
Variables (i : Z) (ps : list gostring) (b : Builder) (p : Z).

Lemma switch_escaped (r : rune) :
  switch i r (mkScanner ps parseDefault true b p)
  = mkScanner ps parseDefault false (b ++ [r]) p.
Proof. reflexivity. Qed.

Lemma switch_boundary (r : rune) :
  IsSpace r || (r =? eol) = true ->
  switch i r (mkScanner ps parseDefault false b p)
  = if p <? i - 1 then mkScanner (ps ++ [b]) parseDefault false [] i
    else mkScanner ps parseDefault false b i.
Proof.
  intros H. unfold switch. cbn [state escape partStart]. rewrite H.
  destruct (p <? i - 1); reflexivity.
Qed.

Lemma switch_open_single :
  switch i sqt (mkScanner ps parseDefault false b p)
  = mkScanner ps parseSingleQuote false b p.
Proof. reflexivity. Qed.

Lemma switch_open_double :
  switch i dqt (mkScanner ps parseDefault false b p)
  = mkScanner ps parseDoubleQuote false b p.
Proof. reflexivity. Qed.

Lemma switch_backslash :
  switch i esc (mkScanner ps parseDefault false b p)
  = mkScanner ps parseDefault true b p.
Proof. reflexivity. Qed.

Lemma switch_plain (r : rune) :
  needsEscape r = false -> r <> eol ->
  switch i r (mkScanner ps parseDefault false b p)
  = mkScanner ps parseDefault false (b ++ [r]) p.
Proof.
  intros Hr Hz. apply needsEscape_false in Hr. destruct Hr as (E1 & E2 & E3 & E4).
  apply Z.eqb_neq in Hz. unfold switch. cbn [state escape].
  now rewrite E1, Hz, E2, E3, E4.
Qed.

Lemma switch_single_close (e : bool) :
  switch i sqt (mkScanner ps parseSingleQuote e b p)
  = mkScanner ps parseDefault e b p.
Proof. reflexivity. Qed.

Lemma switch_single_other (e : bool) (r : rune) :
  r <> sqt ->
  switch i r (mkScanner ps parseSingleQuote e b p)
  = mkScanner ps parseSingleQuote e (b ++ [r]) p.
Proof.
  intros Hr. apply Z.eqb_neq in Hr. unfold switch. cbn [state]. now rewrite Hr.
Qed.

Lemma switch_double_close :
  switch i dqt (mkScanner ps parseDoubleQuote false b p)
  = mkScanner ps parseDefault false b p.
Proof. reflexivity. Qed.

Lemma switch_double_backslash :
  switch i esc (mkScanner ps parseDoubleQuote false b p)
  = mkScanner ps parseDoubleQuote true b p.
Proof. reflexivity. Qed.

Lemma switch_double_other (r : rune) :
  (r =? dqt) || (r =? esc) = false ->
  switch i r (mkScanner ps parseDoubleQuote false b p)
  = mkScanner ps parseDoubleQuote false (b ++ [r]) p.
Proof.
  intros Hr. apply orb_false_iff in Hr. destruct Hr as [E1 E2].
  unfold switch. cbn [state escape]. now rewrite E1, E2.
Qed.

Lemma switch_double_escaped (r : rune) :
  switch i r (mkScanner ps parseDoubleQuote true b p)
  = mkScanner ps parseDoubleQuote false
      (if (r =? dqt) || (r =? esc) then b ++ [r] else b ++ [esc; r]) p.
Proof.
  unfold switch. cbn [state escape]. unfold set_escape, set_sb, WriteRune.
  destruct (r =? dqt), (r =? esc);
    cbn [negb andb orb state escape sb parts partStart]; try reflexivity.
  now rewrite <- app_assoc.
Qed.

End Switch.

(** The sentinel check lets every rune but U+0000 through to the switch. *)
Lemma body_passes (n i : Z) (r : rune) (st : scanner) :
  r <> eol -> body n i r st = inr (switch i r st).
Proof.
  intros Hr. unfold body. apply Z.eqb_neq in Hr. now rewrite Hr.
Qed.

(** ** How the scan reads back each encoding *)

Lemma run_raw (s : gostring) : forall i ps b p,
  ~ In eol s ->
  run i (flat_map rawOf s) (mkScanner ps parseDefault false b p)
  = mkScanner ps parseDefault false (b ++ s) p.
Proof.
  induction s as [|r s IH]; intros i ps b p Hs.
  - simpl. now rewrite app_nil_r.
  - assert (Hr : r <> eol) by (intros ->; apply Hs; now left).
    assert (Hs' : ~ In eol s) by (intros F; apply Hs; now right).
    cbn [flat_map]. unfold rawOf at 1.
    destruct (needsEscape r) eqn:En; cbn [app run].
    + rewrite switch_backslash, switch_escaped, IH by assumption.
      now rewrite <- app_assoc.
    + rewrite switch_plain, IH by assumption. now rewrite <- app_assoc.
Qed.

Lemma run_single_span (s : gostring) : forall i ps b p,
  run i (flat_map singleOf s) (mkScanner ps parseSingleQuote false b p)
  = mkScanner ps parseSingleQuote false (b ++ s) p.
Proof.
  induction s as [|r s IH]; intros i ps b p.
  - simpl. now rewrite app_nil_r.
  - cbn [flat_map]. unfold singleOf at 1.
    destruct (r =? sqt) eqn:Er; rune_cases; cbn [app run].
    + rewrite switch_single_close, switch_backslash, switch_escaped,
        switch_open_single, IH.
      now rewrite <- app_assoc.
    + rewrite switch_single_other, IH by assumption. now rewrite <- app_assoc.
Qed.

Lemma run_double_span (s : gostring) : forall i ps b p,
  run i (flat_map doubleOf s) (mkScanner ps parseDoubleQuote false b p)
  = mkScanner ps parseDoubleQuote false (b ++ s) p.
Proof.
  induction s as [|r s IH]; intros i ps b p.
  - simpl. now rewrite app_nil_r.
  - cbn [flat_map]. unfold doubleOf at 1.
    destruct ((r =? dqt) || (r =? esc)) eqn:Er; cbn [app run].
    + rewrite switch_double_backslash, switch_double_escaped, Er, IH.
      now rewrite <- app_assoc.
    + rewrite switch_double_other, IH by assumption. now rewrite <- app_assoc.
Qed.

Lemma run_quoteSingle (s : gostring) (i : Z) ps b p :
  run i (quoteSingle s) (mkScanner ps parseDefault false b p)
  = mkScanner ps parseDefault false (b ++ s) p.
Proof.
  rewrite quoteSingle_flat. cbn [run].
  rewrite switch_open_single, run_app, run_single_span. cbn [run].
  now rewrite switch_single_close.
Qed.

Lemma run_quoteDouble (s : gostring) (i : Z) ps b p :
  run i (quoteDouble s) (mkScanner ps parseDefault false b p)
  = mkScanner ps parseDefault false (b ++ s) p.
Proof.
  rewrite quoteDouble_flat. cbn [run].
  rewrite switch_open_double, run_app, run_double_span. cbn [run].
  now rewrite switch_double_close.
Qed.

(** [Quote] returns one of its three candidates, or the empty pair. *)
Lemma Quote_cases (s : gostring) :
  (s = [] /\ Quote s = [dqt; dqt]) \/
  (s <> [] /\
   (Quote s = quoteRaw s \/ Quote s = quoteSingle s \/ Quote s = quoteDouble s)).
Proof.
  unfold Quote. destruct (len s =? 0) eqn:E.
  - left. apply Z.eqb_eq, len_zero_iff in E. auto.
  - right. split.
    + intros ->. discriminate.
    + destruct (len (quoteRaw s) <? len (quoteDouble s)).
      * destruct (len (quoteSingle s) <? len (quoteRaw s)); auto.
      * destruct (len (quoteSingle s) <? len (quoteDouble s)); auto.
Qed.

(** The scan reads an encoded token back as the token itself, appended to
    the builder, and comes back to the default state. *)
Lemma run_Quote (s : gostring) (i : Z) ps b p :
  ~ In eol s ->
  run i (Quote s) (mkScanner ps parseDefault false b p)
  = mkScanner ps parseDefault false (b ++ s) p.
Proof.
  intros Hs. destruct (Quote_cases s) as [[-> ->] | [_ [-> | [-> | ->]]]].
  - rewrite app_nil_r. reflexivity.
  - rewrite quoteRaw_flat. now apply run_raw.
  - apply run_quoteSingle.
  - apply run_quoteDouble.
Qed.

Lemma In_flat_map_eol (f : rune -> gostring) (s : gostring) :
  (forall r, r <> eol -> ~ In eol (f r)) ->
  ~ In eol s -> ~ In eol (flat_map f s).
Proof.
  intros Hf Hs Hin. apply in_flat_map in Hin. destruct Hin as (r & Hr & Hin).
  apply (Hf r); [|assumption]. intros ->. now apply Hs.
Qed.

Lemma rawOf_eol r : r <> eol -> ~ In eol (rawOf r).
Proof.
  intros Hr. unfold rawOf. destruct (needsEscape r); simpl; unfold eol, esc in *; lia.
Qed.
Lemma singleOf_eol r : r <> eol -> ~ In eol (singleOf r).
Proof.
  intros Hr. unfold singleOf. destruct (r =? sqt); simpl;
    unfold eol, esc, sqt in *; lia.
Qed.
Lemma doubleOf_eol r : r <> eol -> ~ In eol (doubleOf r).
Proof.
  intros Hr. unfold doubleOf. destruct ((r =? dqt) || (r =? esc)); simpl;
    unfold eol, esc in *; lia.
Qed.

Lemma Quote_eol (s : gostring) : ~ In eol s -> ~ In eol (Quote s).
Proof.
  intros Hs. destruct (Quote_cases s) as [[-> ->] | [_ [-> | [-> | ->]]]].
  - simpl. unfold eol, dqt. lia.
  - rewrite quoteRaw_flat. apply In_flat_map_eol; auto using rawOf_eol.
  - rewrite quoteSingle_flat. intros [F | F]; [discriminate|].
    apply in_app_or in F. destruct F as [F | [F | []]]; [|discriminate].
    revert F. apply In_flat_map_eol; auto using singleOf_eol.
  - rewrite quoteDouble_flat. intros [F | F]; [discriminate|].
    apply in_app_or in F. destruct F as [F | [F | []]]; [|discriminate].
    revert F. apply In_flat_map_eol; auto using doubleOf_eol.
Qed.

Lemma flat_map_length_ge (f : rune -> gostring) (s : gostring) :
  (forall r, (1 <= length (f r))%nat) ->
  (length s <= length (flat_map f s))%nat.
Proof.
  intros Hf. induction s as [|r s IH]; simpl; [lia|].
  rewrite length_app. specialize (Hf r). lia.
Qed.

Lemma rawOf_length r : (1 <= length (rawOf r))%nat.
Proof. unfold rawOf. destruct (needsEscape r); simpl; lia. Qed.

(** An encoded token is never the empty text. *)
Lemma Quote_length_pos (s : gostring) : (1 <= length (Quote s))%nat.
Proof.
  destruct (Quote_cases s) as [[-> ->] | [Hne [-> | [-> | ->]]]].
  - simpl; lia.
  - rewrite quoteRaw_flat.
    pose proof (flat_map_length_ge rawOf s rawOf_length).
    destruct s; [congruence | simpl in *; lia].
  - rewrite quoteSingle_flat. simpl. rewrite length_app. simpl. lia.
  - rewrite quoteDouble_flat. simpl. rewrite length_app. simpl. lia.
Qed.

(** An encoded token is one codepoint long only for a token that is one
    plain codepoint. *)
Lemma Quote_length_two (s : gostring) :
  (forall r, s = [r] -> plain r = false) ->
  (2 <= length (Quote s))%nat.
Proof.
  intros Hs. destruct (Quote_cases s) as [[-> ->] | [Hne [-> | [-> | ->]]]].
  - simpl; lia.
  - rewrite quoteRaw_flat.
    destruct s as [|r [|r' s]]; [congruence | |].
    + specialize (Hs r eq_refl). unfold plain in Hs.
      apply negb_false_iff in Hs. simpl. unfold rawOf. rewrite Hs. simpl. lia.
    + pose proof (flat_map_length_ge rawOf (r :: r' :: s) rawOf_length).
      simpl in *. lia.
  - rewrite quoteSingle_flat. simpl. rewrite length_app. simpl. lia.
  - rewrite quoteDouble_flat. simpl. rewrite length_app. simpl. lia.
Qed.

(** ** Reading back a whole encoded line *)

Lemma args_eol (args : list gostring) :
  Forall eolFree args ->
  ~ In eol (flat_map (fun arg => sp :: Quote arg) args).
Proof.
  induction 1 as [|a args Ha _ IH]; simpl; [tauto|].
  intros [F | F]; [discriminate|].
  apply in_app_or in F. destruct F as [F | F]; [|tauto].
  revert F. now apply Quote_eol.
Qed.

(** From a boundary that will be emitted ([p < i - 1]), the scan of the
    encoded arguments and of the sentinel emits the pending token and then
    every argument. *)
Lemma run_args (args : list gostring) : forall i ps b p,
  p < i - 1 ->
  Forall eolFree args ->
  let rest := flat_map (fun arg => sp :: Quote arg) args in
  let st := run i rest (mkScanner ps parseDefault false b p) in
  state st = parseDefault /\ escape st = false /\
  parts (switch (i + Z.of_nat (length rest)) eol st) = ps ++ b :: args.
Proof.
  induction args as [|a args IH]; intros i ps b p Hp Hargs; cbv zeta.
  - cbn [flat_map run length state escape]. repeat split.
    rewrite switch_boundary by reflexivity.
    replace (p <? i + Z.of_nat 0 - 1) with true by (symmetry; apply Z.ltb_lt; lia).
    reflexivity.
  - inversion Hargs as [|? ? Ha Hargs']; subst.
    cbn [flat_map]. cbn [app run].
    rewrite switch_boundary by reflexivity.
    replace (p <? i - 1) with true by (symmetry; apply Z.ltb_lt; lia).
    rewrite !run_app, !run_Quote by assumption. cbn [app].
    pose proof (Quote_length_pos a) as Hq.
    specialize (IH (i + 1 + Z.of_nat (length (Quote a))) (ps ++ [b]) a i
                  ltac:(lia) Hargs').
    cbv zeta in IH. destruct IH as (IH1 & IH2 & IH3).
    repeat split; [assumption | assumption |].
    cbn [length]. rewrite length_app.
    replace (i + Z.of_nat (S (length (Quote a) + length
               (flat_map (fun arg => sp :: Quote arg) args))))
      with (i + 1 + Z.of_nat (length (Quote a)) + Z.of_nat (length
               (flat_map (fun arg => sp :: Quote arg) args))) by lia.
    rewrite IH3. now rewrite <- app_assoc.
Qed.

Lemma split_GetCommandLine (c : gostring) (args : list gostring) :
  eolFree c -> Forall eolFree args ->
  (forall r, c = [r] -> plain r = false) ->
  split (GetCommandLine c args) = (c :: args, None).
Proof.
  intros Hc Hargs Hplain.
  rewrite split_unfold, GetCommandLine_flat.
  assert (Hline : hasEol (Quote c ++ flat_map (fun arg => sp :: Quote arg) args) = false).
  { apply hasEol_false. intros F. apply in_app_or in F. destruct F as [F | F].
    - revert F. now apply Quote_eol.
    - revert F. now apply args_eol. }
  rewrite Hline. cbv zeta. unfold initial.
  rewrite run_app, run_Quote by assumption. cbn [app].
  pose proof (Quote_length_two c Hplain) as Hq.
  destruct (run_args args (0 + Z.of_nat (length (Quote c))) [] c 0
              ltac:(lia) Hargs) as (E1 & E2 & E3).
  cbv zeta in E1, E2, E3. rewrite E1, E2. cbn [isDefault negb orb].
  rewrite length_app.
  replace (Z.of_nat (length (Quote c) + length
             (flat_map (fun arg => sp :: Quote arg) args)))
    with (0 + Z.of_nat (length (Quote c)) + Z.of_nat (length
             (flat_map (fun arg => sp :: Quote arg) args))) by lia.
  rewrite E3. reflexivity.
Qed.

(** ** [Parse] in terms of [split] *)

Lemma Parse_of_split (line : gostring) :
  Parse line =
    match split line with
    | (_, Some err) => ([], [], Some err)
    | ([], None) => ([], [], Some errUnexpectedEnd)
    | (p0 :: rest, None) => (p0, rest, None)
    end.
Proof.
  unfold Parse. destruct (split line) as [[|p0 [|p1 rest]] [err|]]; reflexivity.
Qed.

Lemma split_error_kind (line : gostring) (ps : list gostring) (err : Error) :
  split line = (ps, Some err) -> ps = [] /\ kind err = ErrParse.
Proof.
  rewrite split_unfold. destruct (hasEol line).
  - intros [= <- <-]. split; reflexivity.
  - cbv zeta. destruct (negb _ || _); [|discriminate].
    intros [= <- <-]. split; reflexivity.
Qed.

(** ** Round trip *)

(** C1 (as stated) fails on a token that holds U+0000: [Quote] writes the
    codepoint unchanged and [split] then rejects the line. *)
Lemma roundtrip_fails_on_sentinel :
  Parse (GetCommandLine (runes "cmd") [[eol]]) = ([], [], Some errInvalidZero)
  /\ Parse (GetCommandLine (runes "cmd") [[eol]]) <> (runes "cmd", [[eol]], None).
Proof. split; [reflexivity | discriminate]. Qed.

(** C1 (amended): for every command [c] and argument sequence [args] in
    which no token holds U+0000, and where [c] is not a single codepoint
    that is written unescaped, [Parse (GetCommandLine c args)] succeeds and
    returns exactly [c] and [args], in order. *)
Theorem Parse_GetCommandLine (c : gostring) (args : list gostring) :
  eolFree c ->
  Forall eolFree args ->
  (forall r, c = [r] -> plain r = false) ->
  Parse (GetCommandLine c args) = (c, args, None).
Proof.
  intros Hc Hargs Hplain.
  rewrite Parse_of_split, split_GetCommandLine by assumption. reflexivity.
Qed.

Lemma Parse_GetCommandLine_witness :
  Parse (GetCommandLine (runes "new command")
           [[]; runes "foo  bar"; [dqt; sqt; esc; sp; 955]; runes "b"])
  = (runes "new command",
     [[]; runes "foo  bar"; [dqt; sqt; esc; sp; 955]; runes "b"], None).
Proof.
  apply Parse_GetCommandLine.
  - unfold eolFree. vm_compute. lia.
  - repeat constructor; unfold eolFree; vm_compute; lia.
  - intros r H. discriminate H.
Defined.

(** ** Failure conditions *)

Lemma tokens_unfold (line : gostring) :
  tokens line = parts (switch (Z.of_nat (length line)) eol (scan line)).
Proof. unfold tokens, scan. rewrite run_app. reflexivity. Qed.



(** ** The encoder *)

(** The three candidates differ from the token by ASCII codepoints only, so
    comparing their lengths in bytes or in codepoints selects the same one. *)
Lemma len_flat_map (f : rune -> gostring) (s : gostring) :
  (forall r, len (f r) - runeWidth r = Z.of_nat (length (f r)) - 1) ->
  len (flat_map f s) - len s
  = Z.of_nat (length (flat_map f s)) - Z.of_nat (length s).
Proof.
  intros Hf. induction s as [|r s IH]; [reflexivity|].
  cbn [flat_map]. rewrite len_app, length_app. cbn [len length].
  specialize (Hf r). lia.
Qed.

Lemma candidates_bytes_vs_codepoints (str : gostring) :
  len (quoteRaw str) - len str
    = Z.of_nat (length (quoteRaw str)) - Z.of_nat (length str)
  /\ len (quoteSingle str) - len str
    = Z.of_nat (length (quoteSingle str)) - Z.of_nat (length str)
  /\ len (quoteDouble str) - len str
    = Z.of_nat (length (quoteDouble str)) - Z.of_nat (length str).
Proof.
  rewrite quoteRaw_flat, quoteSingle_flat, quoteDouble_flat. repeat split.
  - apply len_flat_map. intros r. unfold rawOf.
    destruct (needsEscape r); cbn [len length]; change (runeWidth esc) with 1; lia.
  - cbn [len length]. rewrite len_app, length_app. cbn [len length].
    change (runeWidth sqt) with 1.
    pose proof (len_flat_map singleOf str) as H. rewrite Nat2Z.inj_succ, Nat2Z.inj_add.
    cbn [Z.of_nat] in *. enough (len (flat_map singleOf str) - len str =
      Z.of_nat (length (flat_map singleOf str)) - Z.of_nat (length str)) by lia.
    apply H. intros r. unfold singleOf. destruct (r =? sqt) eqn:Er.
    + rune_cases. reflexivity.
    + cbn [len length]. lia.
  - cbn [len length]. rewrite len_app, length_app. cbn [len length].
    change (runeWidth dqt) with 1.
    pose proof (len_flat_map doubleOf str) as H. rewrite Nat2Z.inj_succ, Nat2Z.inj_add.
    cbn [Z.of_nat] in *. enough (len (flat_map doubleOf str) - len str =
      Z.of_nat (length (flat_map doubleOf str)) - Z.of_nat (length str)) by lia.
    apply H. intros r. unfold doubleOf.
    destruct ((r =? dqt) || (r =? esc)); cbn [len length];
      change (runeWidth esc) with 1; lia.
Qed.

(** C4: for a non-empty token, [Quote] picks its result in two stages: the
    first winner is the double-quoted form when the raw form is at least as
    long, and the raw form otherwise; the result is the single-quoted form
    when it is strictly shorter than the first winner, and the first winner
    otherwise.  Lengths are those of the code, in bytes; counting
    codepoints selects the same candidate. *)
Theorem Quote_selection (str : gostring) :
  str <> [] ->
  Quote str = select len (quoteRaw str) (quoteSingle str) (quoteDouble str)
  /\ Quote str = select (fun s => Z.of_nat (length s))
                   (quoteRaw str) (quoteSingle str) (quoteDouble str).
Proof.
  intros Hne.
  assert (Hlen : Quote str
                 = select len (quoteRaw str) (quoteSingle str) (quoteDouble str)).
  { unfold Quote, select.
    assert (E : (len str =? 0) = false).
    { apply Z.eqb_neq. intros F. apply len_zero_iff in F. contradiction. }
    rewrite E.
    destruct (len (quoteRaw str) <? len (quoteDouble str)) eqn:Hlt.
    - replace (len (quoteRaw str) >=? len (quoteDouble str)) with false;
        [reflexivity|].
      symmetry. rewrite Z.geb_leb. apply Z.leb_gt. now apply Z.ltb_lt.
    - replace (len (quoteRaw str) >=? len (quoteDouble str)) with true;
        [reflexivity|].
      symmetry. rewrite Z.geb_leb. apply Z.leb_le. now apply Z.ltb_ge. }
  split; [exact Hlen|]. rewrite Hlen.
  destruct (candidates_bytes_vs_codepoints str) as (Hr & Hs & Hd).
  unfold select. rewrite !Z.geb_leb.
  replace (Z.of_nat (length (quoteDouble str)) <=? Z.of_nat (length (quoteRaw str)))
    with (len (quoteDouble str) <=? len (quoteRaw str))
    by (destruct (Z.leb_spec (len (quoteDouble str)) (len (quoteRaw str)));
        symmetry; [apply Z.leb_le | apply Z.leb_gt]; lia).
  destruct (len (quoteDouble str) <=? len (quoteRaw str)).
  - replace (Z.of_nat (length (quoteSingle str)) <? Z.of_nat (length (quoteDouble str)))
      with (len (quoteSingle str) <? len (quoteDouble str)); [reflexivity|].
    destruct (Z.ltb_spec (len (quoteSingle str)) (len (quoteDouble str)));
      symmetry; [apply Z.ltb_lt | apply Z.ltb_ge]; lia.
  - replace (Z.of_nat (length (quoteSingle str)) <? Z.of_nat (length (quoteRaw str)))
      with (len (quoteSingle str) <? len (quoteRaw str)); [reflexivity|].
    destruct (Z.ltb_spec (len (quoteSingle str)) (len (quoteRaw str)));
      symmetry; [apply Z.ltb_lt | apply Z.ltb_ge]; lia.
Qed.

Lemma Quote_selection_witness :
  Quote [dqt; dqt; dqt]
  = select len (quoteRaw [dqt; dqt; dqt]) (quoteSingle [dqt; dqt; dqt])
      (quoteDouble [dqt; dqt; dqt])
  /\ Quote [dqt; dqt; dqt]
  = select (fun s => Z.of_nat (length s)) (quoteRaw [dqt; dqt; dqt])
      (quoteSingle [dqt; dqt; dqt]) (quoteDouble [dqt; dqt; dqt]).
Proof. apply (Quote_selection [dqt; dqt; dqt]). discriminate. Defined.

(** C7: [GetCommandLine command args] is [Quote command] followed, for
    each argument in order, by one space and [Quote] of the argument;
    [Quote] of the empty string is the pair of double quotes, [Quote] of
    [foobar] is [foobar], [Quote] of [foo bar] is the raw form with the
    space escaped, and the full-line example gives exactly its line. *)
Theorem GetCommandLine_composition :
  (forall command args,
     GetCommandLine command args
     = Quote command ++ flat_map (fun arg => sp :: Quote arg) args)
  /\ Quote [] = [dqt; dqt]
  /\ Quote (runes "foobar") = runes "foobar"
  /\ Quote (runes "foo bar") = runes "foo\ bar"
  /\ GetCommandLine (runes "newcommand") exampleArgs = exampleLine.
Proof.
  split; [exact GetCommandLine_flat|].
  repeat split; reflexivity.
Qed.

(** ** Quoting contexts of the tokenizer *)

Lemma quoteRaw_eol (s : gostring) : eolFree s -> eolFree (quoteRaw s).
Proof.
  intros Hs. rewrite quoteRaw_flat. apply In_flat_map_eol; auto using rawOf_eol.
Qed.

Lemma quoteSingle_eol (s : gostring) : eolFree s -> eolFree (quoteSingle s).
Proof.
  intros Hs. rewrite quoteSingle_flat. intros [F | F]; [discriminate|].
  apply in_app_or in F. destruct F as [F | [F | []]]; [|discriminate].
  revert F. apply In_flat_map_eol; auto using singleOf_eol.
Qed.

Lemma quoteDouble_eol (s : gostring) : eolFree s -> eolFree (quoteDouble s).
Proof.
  intros Hs. rewrite quoteDouble_flat. intros [F | F]; [discriminate|].
  apply in_app_or in F. destruct F as [F | [F | []]]; [|discriminate].
  revert F. apply In_flat_map_eol; auto using doubleOf_eol.
Qed.

Lemma quoteSingle_length (s : gostring) : (2 <= length (quoteSingle s))%nat.
Proof. rewrite quoteSingle_flat. simpl. rewrite length_app. simpl. lia. Qed.

Lemma quoteDouble_length (s : gostring) : (2 <= length (quoteDouble s))%nat.
Proof. rewrite quoteDouble_flat. simpl. rewrite length_app. simpl. lia. Qed.

(** A single-quote span without an inner single quote is written as is. *)
Lemma quoteSingle_plain (w : gostring) :
  ~ In sqt w -> quoteSingle w = sqt :: w ++ [sqt].
Proof.
  intros Hw. rewrite quoteSingle_flat. do 2 f_equal.
  induction w as [|r w IH]; [reflexivity|].
  cbn [flat_map]. unfold singleOf at 1.
  destruct (r =? sqt) eqn:Er.
  - rune_cases. exfalso. apply Hw. now left.
  - cbn [app]. f_equal. apply IH. intros F. apply Hw. now right.
Qed.

(** The scan of a line that ends in the default state with no escape
    pending and at least two codepoints after the last boundary. *)
Lemma split_ends_token (line : gostring) ps b p :
  eolFree line ->
  run 0 line initial = mkScanner ps parseDefault false b p ->
  p < Z.of_nat (length line) - 1 ->
  split line = (ps ++ [b], None).
Proof.
  intros Hl Hrun Hp. rewrite split_unfold.
  replace (hasEol line) with false by (symmetry; now apply hasEol_false).
  cbv zeta. rewrite Hrun. cbn [state escape isDefault negb orb].
  rewrite switch_boundary by reflexivity.
  replace (p <? Z.of_nat (length line) - 1) with true
    by (symmetry; now apply Z.ltb_lt).
  reflexivity.
Qed.

Lemma eolFree_app (s t : gostring) : eolFree s -> eolFree t -> eolFree (s ++ t).
Proof.
  unfold eolFree. intros Hs Ht F. apply in_app_or in F. tauto.
Qed.

(** C5: inside a single-quote span every codepoint but the single quote,
    backslash included, is appended literally (U+0000 set apart: the
    sentinel check stops the scan on it in every state): a span [w] without
    single quote tokenizes to [w], as the line ['a\b'] does to [a\b]; inside a
    double-quote span a pending backslash is dropped before a double quote
    or a backslash and written back before any other codepoint, so the line
    made of double quote, backslash, [n], double quote gives the token
    backslash, [n]. *)
Theorem escape_by_context :
  (forall n i r ps e b p,
     r <> sqt -> r <> eol ->
     body n i r (mkScanner ps parseSingleQuote e b p)
     = inr (mkScanner ps parseSingleQuote e (b ++ [r]) p))
  /\ (forall w, ~ In sqt w -> eolFree w ->
        Parse (sqt :: w ++ [sqt]) = (w, [], None))
  /\ Parse (runes "'a\b'") = (runes "a\b", [], None)
  /\ (forall n i ps b p,
        body n i esc (mkScanner ps parseDoubleQuote false b p)
        = inr (mkScanner ps parseDoubleQuote true b p))
  /\ (forall n i r ps b p,
        r <> eol ->
        body n i r (mkScanner ps parseDoubleQuote true b p)
        = inr (mkScanner ps parseDoubleQuote false
                 (if (r =? dqt) || (r =? esc) then b ++ [r] else b ++ [esc; r]) p))
  /\ (forall r, r <> eol ->
        Parse [dqt; esc; r; dqt]
        = ((if (r =? dqt) || (r =? esc) then [r] else [esc; r]), [], None))
  /\ Parse [dqt; esc; 110; dqt] = ([esc; 110], [], None).
Proof.
  refine (conj _ (conj _ (conj _ (conj _ (conj _ (conj _ _)))))).
  - intros n i r ps e b p Hq Hz.
    now rewrite body_passes, switch_single_other.
  - intros w Hq Hz. rewrite Parse_of_split.
    rewrite <- quoteSingle_plain by assumption.
    rewrite (split_ends_token (quoteSingle w) [] w 0).
    + reflexivity.
    + now apply quoteSingle_eol.
    + unfold initial. now rewrite run_quoteSingle.
    + pose proof (quoteSingle_length w). lia.
  - reflexivity.
  - intros n i ps b p. reflexivity.
  - intros n i r ps b p Hz.
    now rewrite body_passes, switch_double_escaped.
  - intros r Hz. rewrite Parse_of_split.
    rewrite (split_ends_token [dqt; esc; r; dqt] []
               (if (r =? dqt) || (r =? esc) then [r] else [esc; r]) 0).
    + reflexivity.
    + unfold eolFree. simpl. unfold dqt, esc, eol in *. lia.
    + unfold initial. cbn [run].
      rewrite switch_open_double, switch_double_backslash,
        switch_double_escaped, switch_double_close.
      destruct ((r =? dqt) || (r =? esc)); reflexivity.
    + simpl. lia.
  - reflexivity.
Qed.

(** C6: opening and closing a quote leaves the token list and the builder
    untouched, so quoted and unquoted spans that touch form one token, and
    a quote pair without content gives an empty token; the line of the
    combined-quotes example parses to [cmd] with the arguments [-d] and
    [asdfqwertfoobar test1234 ], and the line of the empty-quotes example,
    with an empty double-quote pair after [-d] and an empty single-quote
    pair after [-m], parses to [cmd] with the arguments [-d], empty, [-m],
    empty. *)
Theorem quote_concatenation :
  (forall i ps b p,
     switch i sqt (mkScanner ps parseDefault false b p)
       = mkScanner ps parseSingleQuote false b p
     /\ switch i dqt (mkScanner ps parseDefault false b p)
       = mkScanner ps parseDoubleQuote false b p
     /\ switch i sqt (mkScanner ps parseSingleQuote false b p)
       = mkScanner ps parseDefault false b p
     /\ switch i dqt (mkScanner ps parseDoubleQuote false b p)
       = mkScanner ps parseDefault false b p)
  /\ (forall u v w, eolFree u -> eolFree v -> eolFree w ->
        split (quoteDouble u ++ quoteSingle v ++ quoteRaw w)
        = ([u ++ v ++ w], None))
  /\ Parse combinedQuotesLine
     = (runes "cmd", [runes "-d"; runes "asdfqwertfoobar test1234 "], None)
  /\ Parse emptyQuotesLine = (runes "cmd", [runes "-d"; []; runes "-m"; []], None).
Proof.
  refine (conj _ (conj _ (conj _ _))).
  - intros i ps b p. repeat split.
  - intros u v w Hu Hv Hw.
    apply (split_ends_token _ [] (u ++ v ++ w) 0).
    + auto using eolFree_app, quoteDouble_eol, quoteSingle_eol, quoteRaw_eol.
    + unfold initial.
      rewrite !run_app, run_quoteDouble, run_quoteSingle, quoteRaw_flat, run_raw
        by assumption.
      cbn [app]. now rewrite app_assoc.
    + rewrite !length_app. pose proof (quoteDouble_length u).
      pose proof (quoteSingle_length v). lia.
  - reflexivity.
  - reflexivity.
Qed.

(** ** Structure of a parsed command *)

(** C8: a successful [Parse] had at least one token from [split]; the
    first token is the command and the remaining tokens, none when there is
    exactly one token, are the arguments in their order. *)
Theorem Parse_structure (line c : gostring) (args : list gostring) :
  Parse line = (c, args, None) ->
  split line = (c :: args, None)
  /\ (1 <= length (fst (split line)))%nat
  /\ (length (fst (split line)) = 1%nat -> args = []).
Proof.
  rewrite Parse_of_split.
  destruct (split line) as [[|p0 rest] [err|]]; try discriminate.
  intros [= -> ->]. cbn [fst length]. repeat split; [lia|].
  intros H. destruct args; [reflexivity | discriminate].
Qed.

Lemma Parse_structure_witness :
  split (runes "newcommand -d foo")
  = (runes "newcommand" :: [runes "-d"; runes "foo"], None)
  /\ (1 <= length (fst (split (runes "newcommand -d foo"))))%nat
  /\ (length (fst (split (runes "newcommand -d foo"))) = 1%nat
      -> [runes "-d"; runes "foo"] = []).
Proof.
  apply (Parse_structure (runes "newcommand -d foo") (runes "newcommand")
           [runes "-d"; runes "foo"]).
  reflexivity.
Defined.

(** ** No sentinel in the tokens *)

Lemma eolFree_snoc (b : gostring) (r : rune) :
  eolFree b -> r <> eol -> eolFree (b ++ [r]).
Proof.
  unfold eolFree. intros Hb Hr F. apply in_app_or in F.
  destruct F as [F | [F | []]]; [tauto | congruence].
Qed.

Lemma switch_clean (i : Z) (r : rune) (st : scanner) :
  r <> eol -> clean st -> clean (switch i r st).
Proof.
  intros Hr [Hp Hb]. destruct st as [ps s e b p]. cbn [parts sb] in Hp, Hb.
  assert (Hesc : esc <> eol) by discriminate.
  unfold switch, clean, flush, set_partStart, set_state, set_escape, set_sb, WriteRune.
  cbn [state escape sb parts partStart].
  destruct s, e;
    repeat match goal with
    | |- context [if ?c then _ else _] => destruct c
    end;
    cbn [state escape sb parts partStart]; split;
    auto using eolFree_snoc, Forall_app, Forall_cons, Forall_nil.
  all: try (apply Forall_app; split; auto).
  all: try (intros F; exact F).
Qed.

Lemma run_clean (rs : list rune) : forall i st,
  eolFree rs -> clean st -> clean (run i rs st).
Proof.
  induction rs as [|r rs IH]; intros i st Hrs Hst; [exact Hst|].
  cbn [run]. apply IH.
  - intros F. apply Hrs. now right.
  - apply switch_clean; [|assumption]. intros ->. apply Hrs. now left.
Qed.

Lemma switch_sentinel_clean (i : Z) (st : scanner) :
  state st = parseDefault -> escape st = false -> clean st ->
  Forall eolFree (parts (switch i eol st)).
Proof.
  intros Hs He [Hp Hb]. unfold switch. rewrite Hs, He.
  change (IsSpace eol || (eol =? eol)) with true. cbv iota.
  destruct (partStart st <? i - 1); cbn [set_partStart flush parts]; [|assumption].
  apply Forall_app. split; auto.
Qed.

Lemma split_clean (line : gostring) (ps : list gostring) :
  split line = (ps, None) -> Forall eolFree ps.
Proof.
  rewrite split_unfold. destruct (hasEol line) eqn:Hz; [discriminate|].
  apply hasEol_false in Hz. cbv zeta.
  destruct (isDefault (state (run 0 line initial))) eqn:Hs; [|discriminate].
  destruct (escape (run 0 line initial)) eqn:He; [discriminate|].
  cbn [negb orb]. intros [= <-].
  apply switch_sentinel_clean.
  - destruct (state (run 0 line initial)); [reflexivity | discriminate | discriminate].
  - assumption.
  - apply run_clean; [assumption|]. split; [constructor | intros []].
Qed.

(** C9: when [Parse] succeeds, neither the command nor any argument holds
    the codepoint U+0000. *)
Theorem Parse_no_sentinel (line c : gostring) (args : list gostring) :
  Parse line = (c, args, None) ->
  ~ In eol c /\ (forall arg, In arg args -> ~ In eol arg).
Proof.
  rewrite Parse_of_split.
  destruct (split line) as [[|p0 rest] [err|]] eqn:Hsplit; try discriminate.
  intros [= -> ->]. apply split_clean in Hsplit.
  inversion Hsplit as [|? ? Hc Hargs]; subst. split; [exact Hc|].
  intros arg Hin. rewrite Forall_forall in Hargs. now apply Hargs.
Qed.

Lemma Parse_no_sentinel_witness :
  ~ In eol (runes "cmd")
  /\ (forall arg, In arg [runes "a b"; []] -> ~ In eol arg).
Proof.
  apply (Parse_no_sentinel (runes "cmd 'a b' ''") (runes "cmd") [runes "a b"; []]).
  reflexivity.
Defined.

(** ** [MockExecutor] *)

(** C10: [MockExecutor.RunLine] calls the callback exactly when [Parse]
    succeeds: on a parse error it returns the empty output, the code 0 and
    the error, leaves the world as it was and makes no call; on success its
    result is the callback applied to the parsed command and arguments, one
    call; [MockExecutor.Run] is the callback. *)
Theorem MockExecutor_routing (W : Type) (cb : callback W) (line : gostring) (w : W) :
  (forall err, snd (Parse line) = Some err ->
     MockExecutor_RunLine (NewMockExecutor cb) line w = (([], 0, Some err), w)
     /\ snd (snd (MockExecutor_RunLine (NewMockExecutor (counted cb)) line (w, 0%nat)))
        = 0%nat)
  /\ (forall c args, Parse line = (c, args, None) ->
        MockExecutor_RunLine (NewMockExecutor cb) line w = cb c args w
        /\ snd (snd (MockExecutor_RunLine (NewMockExecutor (counted cb)) line (w, 0%nat)))
           = 1%nat)
  /\ (forall c args,
        MockExecutor_Run (NewMockExecutor cb) c args w = cb c args w).
Proof.
  unfold MockExecutor_RunLine, MockExecutor_Run. cbn [RunCallback].
  destruct (Parse line) as [[c0 args0] [e|]]; cbn [snd].
  - refine (conj _ (conj _ _)).
    + intros err [= <-]. split; reflexivity.
    + intros c args [=].
    + reflexivity.
  - refine (conj _ (conj _ _)).
    + intros err [=].
    + intros c args [= -> ->]. split; [reflexivity|].
      unfold counted. cbn [fst snd]. destruct (cb c args w). reflexivity.
    + reflexivity.
Qed.

(** ** The emission rule *)

Lemma switch_simulates (i : Z) (r : rune) (st : scanner) (lx : SpecLexer.lexer) :
  simulates i st lx ->
  simulates (i + 1) (switch i r st) (SpecLexer.step r lx).
Proof.
  destruct st as [ps s e b p], lx as [ps' s' e' b' o].
  unfold simulates. cbn [parts state escape sb partStart
    SpecLexer.emitted SpecLexer.mode SpecLexer.pending SpecLexer.buffer SpecLexer.opened].
  intros (<- & <- & <- & <- & Hle & Hopen).
  unfold switch, SpecLexer.step, flush, set_partStart, set_state, set_escape,
    set_sb, WriteRune.
  cbn [parts state escape sb partStart
    SpecLexer.emitted SpecLexer.mode SpecLexer.pending SpecLexer.buffer SpecLexer.opened].
  destruct s, e; cbn [isDefault negb andb] in Hopen.
  - cbn. repeat split; try lia.
  - destruct (IsSpace r || (r =? eol)).
    + destruct (p <? i - 1) eqn:Hp.
      * apply Z.ltb_lt in Hp. apply Hopen in Hp. rewrite Hp.
        cbn. repeat split; try lia; try discriminate.
      * apply Z.ltb_ge in Hp. destruct o.
        -- exfalso. assert (p < i - 1) by now apply Hopen. lia.
        -- cbn. repeat split; try lia; try discriminate.
    + destruct (r =? sqt); [cbn; repeat split; lia|].
      destruct (r =? dqt); [cbn; repeat split; lia|].
      destruct (r =? esc); cbn; repeat split; lia.
  - destruct (r =? sqt); cbn; repeat split; lia.
  - destruct (r =? sqt); cbn; repeat split; lia.
  - destruct (negb (r =? esc) && negb (r =? dqt)); cbn;
      rewrite <- ?app_assoc; repeat split; lia.
  - destruct (r =? dqt); [cbn; repeat split; lia|].
    destruct (r =? esc); cbn; repeat split; lia.
Qed.

Lemma run_simulates (rs : list rune) : forall i st lx,
  simulates i st lx ->
  simulates (i + Z.of_nat (length rs)) (run i rs st) (SpecLexer.steps rs lx).
Proof.
  induction rs as [|r rs IH]; intros i st lx H.
  - cbn [run SpecLexer.steps fold_left length]. now replace (i + Z.of_nat 0) with i by lia.
  - cbn [run length]. unfold SpecLexer.steps. cbn [fold_left].
    replace (i + Z.of_nat (S (length rs))) with (i + 1 + Z.of_nat (length rs)) by lia.
    apply IH. now apply switch_simulates.
Qed.

(** Started with [partStart = -1], the loop of [split] emits exactly the
    tokens of the flag-based rule, on every line. *)
Lemma partStart_minus_one_refines (line : gostring) :
  parts (run 0 (line ++ [eol]) (mkScanner [] parseDefault false [] (-1)))
  = SpecLexer.tokens line.
Proof.
  unfold SpecLexer.tokens.
  assert (H0 : simulates 0 (mkScanner [] parseDefault false [] (-1)) SpecLexer.start).
  { unfold simulates. cbn. repeat split; try lia; try discriminate. }
  apply (run_simulates (line ++ [eol])) in H0. now destruct H0 as [-> _].
Qed.

(** C2: [split] starts with [partStart = 0], so the codepoint at index 0
    does not count as having opened a token.  A line of one plain codepoint,
    such as [a], yields no token at the sentinel and [Parse] rejects it; on
    the line [a b] the space at index 1 emits nothing and [a] and [b] run
    together into one token.  The rule "emit iff the token was opened since
    the previous boundary" gives one token for [a] and two for [a b]. *)
Theorem split_first_codepoint_not_opening :
  (forall r, plain r = true -> r <> eol ->
     split [r] = ([], None)
     /\ Parse [r] = ([], [], Some errUnexpectedEnd)
     /\ SpecLexer.tokens [r] = [[r]])
  /\ Parse (runes "a") = ([], [], Some errUnexpectedEnd)
  /\ SpecLexer.tokens (runes "a") = [runes "a"]
  /\ split (runes "a b") = ([runes "ab"], None)
  /\ Parse (runes "a b") = (runes "ab", [], None)
  /\ SpecLexer.tokens (runes "a b") = [runes "a"; runes "b"].
Proof.
  split; [|repeat split].
  intros r Hplain Hr. unfold plain in Hplain. apply negb_true_iff in Hplain.
  apply needsEscape_false in Hplain. destruct Hplain as (E1 & E2 & E3 & E4).
  assert (E0 : (r =? eol) = false) by now apply Z.eqb_neq.
  assert (Hsplit : split [r] = ([], None)).
  { rewrite split_unfold. unfold hasEol. cbn [existsb]. rewrite E0. cbn [orb].
    assert (Hrun : run 0 [r] initial = mkScanner [] parseDefault false [r] 0).
    { unfold initial. cbn [run]. unfold switch. cbn [state escape].
      rewrite E1, E0, E2, E3, E4. reflexivity. }
    cbv zeta. rewrite Hrun. reflexivity. }
  split; [exact Hsplit|]. split.
  - rewrite Parse_of_split, Hsplit. reflexivity.
  - unfold SpecLexer.tokens, SpecLexer.steps, SpecLexer.start. cbn [app fold_left].
    unfold SpecLexer.step at 2.
    cbn [SpecLexer.mode SpecLexer.pending SpecLexer.opened].
    rewrite E1, E0, E2, E3, E4. cbn [orb]. reflexivity.
Qed.

Lemma switch_alike (i : Z) (r : rune) (st st' : scanner) :
  alike i st st' -> alike (i + 1) (switch i r st) (switch i r st').
Proof.
  destruct st as [ps s e b p], st' as [ps' s' e' b' p'].
  unfold alike. cbn [parts state escape sb partStart].
  intros (<- & <- & <- & <- & Hp).
  unfold switch, flush, set_partStart, set_state, set_escape, set_sb, WriteRune.
  cbn [parts state escape sb partStart].
  destruct s, e.
  2: destruct (IsSpace r || (r =? eol));
       [ destruct (p <? i - 1) eqn:H1, (p' <? i - 1) eqn:H2;
         try apply Z.ltb_lt in H1; try apply Z.ltb_lt in H2;
         try apply Z.ltb_ge in H1; try apply Z.ltb_ge in H2;
         try (exfalso; lia)
       | ].
  all: repeat match goal with
       | |- context [if ?c then _ else _] => destruct c
       end;
       cbn [parts state escape sb partStart]; repeat split; lia.
Qed.

Lemma run_alike (rs : list rune) : forall i st st',
  alike i st st' -> parts (run i rs st) = parts (run i rs st').
Proof.
  induction rs as [|r rs IH]; intros i st st' H.
  - cbn [run]. now destruct H as [H _].
  - cbn [run]. apply IH. now apply switch_alike.
Qed.

(** A rune that is not read as a boundary leaves [partStart] alone. *)
Lemma switch_alike_inside (i : Z) (r : rune) ps s e b p p' :
  isDefault s && negb e && (IsSpace r || (r =? eol)) = false ->
  p < i -> p' < i ->
  alike (i + 1) (switch i r (mkScanner ps s e b p))
                (switch i r (mkScanner ps s e b p')).
Proof.
  intros Hb Hp Hp'.
  unfold alike, switch, flush, set_partStart, set_state, set_escape, set_sb,
    WriteRune.
  cbn [parts state escape sb partStart].
  destruct s, e; cbn [isDefault negb andb] in Hb; try rewrite Hb;
    repeat match goal with
    | |- context [if ?c then _ else _] => destruct c
    end; cbn [parts state escape sb partStart]; repeat split; lia.
Qed.

(** On every other line the scan of [split] emits the tokens of the
    flag-based rule. *)
Lemma tokens_refine_opened (line : gostring) :
  startsWithShortToken line = false ->
  tokens line = SpecLexer.tokens line.
Proof.
  intros Hs. rewrite <- partStart_minus_one_refines. unfold tokens, initial.
  unfold startsWithShortToken in Hs.
  destruct (line ++ [eol]) as [|r0 [|r1 rest]] eqn:E.
  - reflexivity.
  - cbn [run]. unfold switch. cbn [state escape partStart].
    destruct (IsSpace r0 || (r0 =? eol)); [reflexivity|].
    repeat match goal with
    | |- context [if ?c then _ else _] => destruct c
    end; reflexivity.
  - cbn [run]. apply run_alike.
    destruct (IsSpace r0 || (r0 =? eol)) eqn:B0.
    + assert (A0 : forall p0, p0 = 0 \/ p0 = -1 ->
                switch 0 r0 (mkScanner [] parseDefault false [] p0)
                = mkScanner [] parseDefault false [] 0).
      { intros p0 Hp0. unfold switch. cbn [state escape partStart]. rewrite B0.
        replace (p0 <? 0 - 1) with false by (symmetry; apply Z.ltb_ge; lia).
        reflexivity. }
      rewrite !A0 by lia. apply switch_alike.
      unfold alike. repeat split. now left.
    + unfold switch at 2 4. cbn [state escape]. rewrite B0.
      cbn [orb] in Hs.
      unfold set_state, set_escape, set_sb, WriteRune.
      cbn [parts state escape sb partStart].
      destruct (r0 =? sqt); [apply switch_alike_inside; [reflexivity | lia | lia]|].
      destruct (r0 =? dqt); [apply switch_alike_inside; [reflexivity | lia | lia]|].
      destruct (r0 =? esc); [apply switch_alike_inside; [reflexivity | lia | lia]|].
      cbn [orb negb andb] in Hs.
      apply switch_alike_inside; [exact Hs | lia | lia].
Qed.

(** ** The cases of [exec_test.go] *)

Example TestParse :
  Parse (runes "newcommand -d foo -m bar")
  = (runes "newcommand", [runes "-d"; runes "foo"; runes "-m"; runes "bar"], None).
Proof. reflexivity. Qed.

Example TestParseCommandOnly :
  Parse (runes "newcommand") = (runes "newcommand", [], None).
Proof. reflexivity. Qed.

Example TestParseSpaces :
  Parse (runes "newcommand    -d    foo    -m   bar    ")
  = (runes "newcommand", [runes "-d"; runes "foo"; runes "-m"; runes "bar"], None).
Proof. reflexivity. Qed.

Example TestParseEscapeSpace :
  Parse (runes "new\ command -d f\ oo -m bar\ ")
  = (runes "new command", [runes "-d"; runes "f oo"; runes "-m"; runes "bar "], None).
Proof. reflexivity. Qed.

Example TestParseEscapeSingleSpace :
  Parse (runes "newcommand \ \\\ ") = (runes "newcommand", [runes " \ "], None).
Proof. reflexivity. Qed.

Example TestParseEscapeQuotes :
  Parse (runes "newcommand \" ++ [dqt] ++ runes " test \'")
  = (runes "newcommand", [[dqt]; runes "test"; [sqt]], None).
Proof. reflexivity. Qed.

Example TestParseQuotes :
  Parse (runes "newcommand -d " ++ dq (runes "foo ' bar") ++ runes " -m 'single test "
         ++ [dqt] ++ runes " quotes'")
  = (runes "newcommand",
     [runes "-d"; runes "foo ' bar"; runes "-m";
      runes "single test " ++ [dqt] ++ runes " quotes"], None).
Proof. reflexivity. Qed.

Example TestParseQuoteEscape :
  Parse (runes "newcommand a\\b a\;b " ++ dq (runes "a\;b") ++ runes " 'a\;b' "
         ++ dq (runes "\'\n\" ++ [dqt] ++ runes "blub")
         ++ runes " '\" ++ [dqt] ++ runes "\n\ blub' "
         ++ dq (runes "foo\\bar\ \t\n\0") ++ runes " 'foo\\bar'")
  = (runes "newcommand",
     [runes "a\b"; runes "a;b"; runes "a\;b"; runes "a\;b";
      runes "\'\n" ++ [dqt] ++ runes "blub";
      runes "\" ++ [dqt] ++ runes "\n\ blub";
      runes "foo\bar\ \t\n\0"; runes "foo\\bar"], None).
Proof. reflexivity. Qed.

Example TestParseEmpty : snd (Parse []) = Some errUnexpectedEnd.
Proof. reflexivity. Qed.

Example TestParseEscapeEnd : snd (Parse (runes "newcommand \")) = Some errUnexpectedEnd.
Proof. reflexivity. Qed.

Example TestParseDoubleQuoteFail :
  snd (Parse (runes "newcommand " ++ [dqt] ++ runes "test")) = Some errUnexpectedEnd.
Proof. reflexivity. Qed.

Example TestParseSingleQuoteFail :
  snd (Parse (runes "newcommand 'test")) = Some errUnexpectedEnd.
Proof. reflexivity. Qed.

Example TestParseZeroRune :
  snd (Parse (runes "newcommand test " ++ [eol])) = Some errInvalidZero.
Proof. reflexivity. Qed.

Example TestGetCommandLineNoQuotes :
  GetCommandLine (runes "newcommand") [runes "blub"; runes "foobar"]
  = runes "newcommand blub foobar".
Proof. reflexivity. Qed.

Example TestMockExecutorRunLine (genericError : Error) :
  MockExecutor_RunLine
    (NewMockExecutor (fun command args (w : list (gostring * list gostring)) =>
       ((runes "foobar", 42, Some genericError), w ++ [(command, args)])))
    (runes "./test/success.sh foo bar") []
  = ((runes "foobar", 42, Some genericError),
     [(runes "./test/success.sh", [runes "foo"; runes "bar"])]).
Proof. reflexivity. Qed.

Example TestMockExecutorRunLineParseFail :
  MockExecutor_RunLine
    (NewMockExecutor (fun command args (w : list (gostring * list gostring)) =>
       (([], 0, None), w ++ [(command, args)])))
    (Quote (runes "./test/args.sh") ++ runes " " ++ dq (runes "foo test space")
     ++ runes " " ++ [dqt] ++ runes "bar") []
  = (([], 0, Some errUnexpectedEnd), []).
Proof. reflexivity. Qed.

(** * Further properties of the code *)

(** ** Which error [Parse] returns *)

Lemma IsSpace_not_eol (r : rune) : IsSpace r = true -> r <> eol.
Proof. intros H ->. discriminate H. Qed.

Lemma IsSpace_not_special (r : rune) :
  IsSpace r = true ->
  (r =? sqt) = false /\ (r =? dqt) = false /\ (r =? esc) = false /\ (r =? eol) = false.
Proof.
  intros H. repeat split; apply Z.eqb_neq; intros ->; discriminate H.
Qed.

(** X1: a line that holds U+0000 anywhere, even inside a quote span or
    after a backslash, is rejected with the message of the invalid 0 char;
    every other rejected line is rejected with the message of the unexpected
    end of the command line. *)
Theorem Parse_error_message (line : gostring) :
  (In eol line -> Parse line = ([], [], Some errInvalidZero))
  /\ (~ In eol line -> snd (Parse line) <> None ->
      Parse line = ([], [], Some errUnexpectedEnd)).
Proof.
  rewrite Parse_of_split, split_unfold. split.
  - intros Hin. apply hasEol_In in Hin. now rewrite Hin.
  - intros Hin. apply hasEol_false in Hin. rewrite Hin. cbv zeta.
    destruct (negb (isDefault (state (run 0 line initial)))
              || escape (run 0 line initial)); [reflexivity|].
    destruct (parts (switch (Z.of_nat (length line)) eol (run 0 line initial)));
      [reflexivity|].
    cbn [snd]. intros F. now contradiction F.
Qed.

(** ** Blank lines and trailing whitespace *)

Lemma run_blank (ws : list rune) : forall i p,
  Forall (fun r => IsSpace r = true) ws ->
  i - 1 <= p ->
  exists p', run i ws (mkScanner [] parseDefault false [] p)
             = mkScanner [] parseDefault false [] p'
             /\ i + Z.of_nat (length ws) - 1 <= p'.
Proof.
  induction ws as [|r ws IH]; intros i p Hws Hp.
  - exists p. split; [reflexivity | cbn [length]; lia].
  - inversion Hws as [|? ? Hr Hws']; subst. cbn [run].
    rewrite switch_boundary by (rewrite Hr; reflexivity).
    replace (p <? i - 1) with false by (symmetry; apply Z.ltb_ge; lia).
    destruct (IH (i + 1) i Hws' ltac:(lia)) as (p' & E & Hp').
    exists p'. split; [exact E | cbn [length]; lia].
Qed.

(** X2: a line made of whitespace only, the empty line included, has no
    token: [Parse] rejects it with the unexpected-end error. *)
Theorem Parse_blank_line (line : gostring) :
  Forall (fun r => IsSpace r = true) line ->
  Parse line = ([], [], Some errUnexpectedEnd).
Proof.
  intros Hws. rewrite Parse_of_split, split_unfold.
  assert (Hz : hasEol line = false).
  { apply hasEol_false. intros Hin. rewrite Forall_forall in Hws.
    apply Hws in Hin. discriminate Hin. }
  rewrite Hz. cbv zeta. unfold initial.
  destruct (run_blank line 0 0 Hws ltac:(lia)) as (p' & E & Hp').
  rewrite E. cbn [state escape isDefault negb orb].
  rewrite switch_boundary by reflexivity.
  replace (p' <? Z.of_nat (length line) - 1) with false
    by (symmetry; apply Z.ltb_ge; lia).
  reflexivity.
Qed.

Lemma Parse_blank_line_witness :
  Parse [sp; 9; sp; 8232] = ([], [], Some errUnexpectedEnd).
Proof. apply Parse_blank_line. repeat constructor. Defined.

Lemma hasEol_app (xs ys : list rune) :
  hasEol (xs ++ ys) = hasEol xs || hasEol ys.
Proof. unfold hasEol. apply existsb_app. Qed.

(** X3: whitespace at the end of a line changes nothing, unless it comes
    right after an unquoted backslash, which makes it part of a token:
    [Parse] gives the same result, error or not, with and without it. *)
Theorem Parse_trailing_whitespace (line : gostring) (r : rune) :
  IsSpace r = true ->
  (state (scan line) = parseDefault -> escape (scan line) = false) ->
  Parse (line ++ [r]) = Parse line.
Proof.
  intros Hr Hesc. destruct (IsSpace_not_special r Hr) as (E1 & E2 & E3 & E0).
  rewrite !Parse_of_split, !split_unfold, hasEol_app.
  replace (hasEol [r]) with false by (unfold hasEol; cbn [existsb]; now rewrite E0).
  rewrite orb_false_r. destruct (hasEol line); [reflexivity|]. cbv zeta.
  rewrite run_app. cbn [run]. rewrite Z.add_0_l, length_app. cbn [length].
  unfold scan in Hesc. destruct (run 0 line initial) as [ps s e b p].
  cbn [state escape] in Hesc. destruct s.
  - rewrite (Hesc eq_refl). rewrite switch_boundary by (rewrite Hr; reflexivity).
    cbn [state escape isDefault negb orb].
    rewrite switch_boundary by reflexivity.
    destruct (p <? Z.of_nat (length line) - 1);
      cbn [state escape isDefault negb orb];
      rewrite switch_boundary by reflexivity;
      replace (Z.of_nat (length line) <? Z.of_nat (length line + 1) - 1) with false
        by (symmetry; apply Z.ltb_ge; lia);
      reflexivity.
  - rewrite switch_single_other by (now apply Z.eqb_neq). reflexivity.
  - destruct e.
    + rewrite switch_double_escaped. reflexivity.
    + rewrite switch_double_other by (now rewrite E2, E3). reflexivity.
Qed.

Lemma Parse_trailing_whitespace_witness :
  Parse (runes "cmd 'a b'" ++ [sp]) = Parse (runes "cmd 'a b'").
Proof.
  apply Parse_trailing_whitespace; [reflexivity | intros _; reflexivity].
Defined.

(** ** Appending to a command line *)

Lemma switch_moved (k : Z) (ps0 : list gostring) (i : Z) (r : rune) (st : scanner) :
  switch (i + k) r (moved k ps0 st) = moved k ps0 (switch i r st).
Proof.
  destruct st as [ps s e b p].
  unfold switch, moved, flush, set_partStart, set_state, set_escape, set_sb,
    WriteRune.
  cbn [parts state escape sb partStart].
  replace (p + k <? i + k - 1) with (p <? i - 1)
    by (destruct (Z.ltb_spec p (i - 1)); symmetry;
        [apply Z.ltb_lt | apply Z.ltb_ge]; lia).
  destruct s, e;
    repeat match goal with
    | |- context [if ?c then _ else _] => destruct c
    end;
    cbn [parts state escape sb partStart]; rewrite ?app_assoc; reflexivity.
Qed.

Lemma run_moved (k : Z) (ps0 : list gostring) (rs : list rune) : forall i st,
  run (i + k) rs (moved k ps0 st) = moved k ps0 (run i rs st).
Proof.
  induction rs as [|r rs IH]; intros i st; [reflexivity|].
  cbn [run]. rewrite switch_moved.
  replace (i + k + 1) with (i + 1 + k) by lia. apply IH.
Qed.

Lemma switch_settled (i : Z) (r : rune) (st : scanner) :
  settled i st -> settled (i + 1) (switch i r st).
Proof.
  destruct st as [ps s e b p]. unfold settled. cbn [parts state escape sb partStart].
  intros H.
  assert (Hin : forall st',
            parts st' = ps -> partStart st' = p ->
            parts st' <> [] ->
            partStart st' <= i + 1 - 1 /\
            (partStart st' = i + 1 - 1 ->
             sb st' = [] /\ state st' = parseDefault /\ escape st' = false)).
  { intros st' Eps Ep Hne. rewrite Eps in Hne. rewrite Ep.
    destruct (H Hne) as [H1 _]. split; [lia | intros F; exfalso; lia]. }
  unfold switch, flush, set_partStart, set_state, set_escape, set_sb, WriteRune.
  cbn [parts state escape sb partStart].
  destruct s, e; try (apply Hin; reflexivity).
  - destruct (IsSpace r || (r =? eol)).
    + destruct (p <? i - 1) eqn:Hp; cbn [parts state escape sb partStart].
      * intros _. repeat split; lia.
      * apply Z.ltb_ge in Hp. intros Hne. destruct (H Hne) as [H1 H2].
        destruct (H2 ltac:(lia)) as (-> & _ & _). repeat split; lia.
    + destruct (r =? sqt); [apply Hin; reflexivity|].
      destruct (r =? dqt); [apply Hin; reflexivity|].
      destruct (r =? esc); apply Hin; reflexivity.
  - destruct (r =? sqt); apply Hin; reflexivity.
  - destruct (r =? sqt); apply Hin; reflexivity.
  - destruct (negb (r =? esc) && negb (r =? dqt)); apply Hin; reflexivity.
  - destruct (r =? dqt); [apply Hin; reflexivity|].
    destruct (r =? esc); apply Hin; reflexivity.
Qed.

Lemma run_settled (rs : list rune) : forall i st,
  settled i st -> settled (i + Z.of_nat (length rs)) (run i rs st).
Proof.
  induction rs as [|r rs IH]; intros i st H.
  - cbn [run length]. now replace (i + Z.of_nat 0) with i by lia.
  - cbn [run length].
    replace (i + Z.of_nat (S (length rs))) with (i + 1 + Z.of_nat (length rs)) by lia.
    apply IH. now apply switch_settled.
Qed.

(** X4: more text after a command line that parses, set off by a
    whitespace, only appends arguments: the command and the arguments
    parsed so far stay, followed by the tokens of the added text. *)
Theorem Parse_append_arguments (l1 l2 : gostring) (r : rune)
    (c : gostring) (a1 ts2 : list gostring) :
  IsSpace r = true ->
  Parse l1 = (c, a1, None) ->
  split (r :: l2) = (ts2, None) ->
  Parse (l1 ++ r :: l2) = (c, a1 ++ ts2, None).
Proof.
  intros Hr H1 H2. destruct (IsSpace_not_special r Hr) as (_ & _ & _ & E0).
  assert (S1 : split l1 = (c :: a1, None)).
  { rewrite Parse_of_split in H1.
    destruct (split l1) as [[|p0 rest] [err|]]; try discriminate.
    now injection H1 as -> ->. }
  clear H1. rewrite split_unfold in S1, H2.
  remember (Z.of_nat (length (r :: l2))) as n2 eqn:En2.
  destruct (hasEol l1) eqn:Z1; [discriminate|].
  destruct (hasEol (r :: l2)) eqn:Z2; [discriminate|].
  cbv zeta in S1, H2.
  pose proof (run_settled l1 0 initial) as Hset.
  unfold initial in *. cbn [run] in H2.
  rewrite switch_boundary in H2 by (rewrite Hr; reflexivity).
  change (0 <? 0 - 1) with false in H2. cbv iota in H2.
  destruct (run 0 l1 (mkScanner [] parseDefault false [] 0)) as [ps s e b p] eqn:R1.
  cbn [state escape] in S1. destruct s; try discriminate. destruct e; [discriminate|].
  cbn [isDefault negb orb] in S1.
  assert (Hsp : switch (Z.of_nat (length l1)) r (mkScanner ps parseDefault false b p)
                = moved (Z.of_nat (length l1)) (c :: a1)
                    (mkScanner [] parseDefault false [] 0)).
  { rewrite switch_boundary in S1 by reflexivity.
    rewrite switch_boundary by (rewrite Hr; reflexivity).
    unfold moved. cbn [parts state escape sb partStart]. rewrite app_nil_r.
    destruct (p <? Z.of_nat (length l1) - 1) eqn:Hp; cbn [parts] in S1;
      injection S1 as S1.
    - now rewrite S1.
    - apply Z.ltb_ge in Hp. subst ps.
      assert (Hs : settled (0 + Z.of_nat (length l1))
                     (mkScanner (c :: a1) parseDefault false b p)).
      { apply Hset. intros F. now contradiction F. }
      destruct (Hs ltac:(discriminate)) as [Hle Hb]. cbn [partStart sb] in Hle, Hb.
      destruct (Hb ltac:(lia)) as (-> & _). reflexivity. }
  rewrite Parse_of_split, split_unfold, hasEol_app, Z1, Z2. cbn [orb]. cbv zeta.
  unfold initial. rewrite run_app, R1. cbn [run]. rewrite Z.add_0_l, Hsp.
  replace (Z.of_nat (length l1) + 1) with (0 + 1 + Z.of_nat (length l1)) by lia.
  rewrite run_moved.
  destruct (run (0 + 1) l2 (mkScanner [] parseDefault false [] 0))
    as [ps2 s2 e2 b2 p2] eqn:R2.
  cbn [state escape] in H2. unfold moved at 1 2. cbn [state escape].
  destruct (negb (isDefault s2) || e2); [discriminate|].
  injection H2 as H2.
  replace (Z.of_nat (length (l1 ++ r :: l2))) with (n2 + Z.of_nat (length l1))
    by (subst n2; rewrite length_app; cbn [length]; lia).
  rewrite switch_moved. unfold moved. cbn [parts]. rewrite H2. reflexivity.
Qed.

Lemma Parse_append_arguments_witness :
  Parse (runes "cmd -d" ++ sp :: runes "'a b'  c")
  = (runes "cmd", [runes "-d"] ++ [runes "a b"; runes "c"], None).
Proof.
  apply Parse_append_arguments; reflexivity.
Defined.

(** ** Every candidate of [Quote] is read back *)

Lemma quoteDouble_plain (w : gostring) :
  ~ In dqt w -> ~ In esc w -> quoteDouble w = dqt :: w ++ [dqt].
Proof.
  intros Hd He. rewrite quoteDouble_flat. do 2 f_equal.
  induction w as [|r w IH]; [reflexivity|].
  cbn [flat_map]. unfold doubleOf at 1.
  assert (E1 : (r =? dqt) = false) by (apply Z.eqb_neq; intros ->; apply Hd; now left).
  assert (E2 : (r =? esc) = false) by (apply Z.eqb_neq; intros ->; apply He; now left).
  rewrite E1, E2. cbn [orb app]. f_equal. apply IH.
  - intros F. apply Hd. now right.
  - intros F. apply He. now right.
Qed.

(** X5: between double quotes, a text without double quote and without
    backslash is taken as it stands, whitespace and single quotes
    included: the line is one token, the command. *)
Theorem Parse_double_quoted (w : gostring) :
  ~ In dqt w -> ~ In esc w -> ~ In eol w ->
  Parse (dqt :: w ++ [dqt]) = (w, [], None).
Proof.
  intros Hd He Hz. rewrite <- quoteDouble_plain by assumption.
  rewrite Parse_of_split, (split_ends_token (quoteDouble w) [] w 0).
  - reflexivity.
  - now apply quoteDouble_eol.
  - unfold initial. now rewrite run_quoteDouble.
  - pose proof (quoteDouble_length w). lia.
Qed.

Lemma Parse_double_quoted_witness :
  Parse (dqt :: runes "it's  a 'test'" ++ [dqt]) = (runes "it's  a 'test'", [], None).
Proof.
  apply Parse_double_quoted; vm_compute; lia.
Defined.

(** X6: each of the three renderings of a token without U+0000 is read
    back by [split] as that one token, the raw one provided it is at least
    two codepoints long; [Quote] only chooses among equivalent encodings. *)
Theorem candidates_read_back (s : gostring) :
  ~ In eol s ->
  split (quoteSingle s) = ([s], None)
  /\ split (quoteDouble s) = ([s], None)
  /\ ((2 <= length (quoteRaw s))%nat -> split (quoteRaw s) = ([s], None)).
Proof.
  intros Hz. refine (conj _ (conj _ _)).
  - apply (split_ends_token (quoteSingle s) [] s 0).
    + now apply quoteSingle_eol.
    + unfold initial. now rewrite run_quoteSingle.
    + pose proof (quoteSingle_length s). lia.
  - apply (split_ends_token (quoteDouble s) [] s 0).
    + now apply quoteDouble_eol.
    + unfold initial. now rewrite run_quoteDouble.
    + pose proof (quoteDouble_length s). lia.
  - intros Hlen. apply (split_ends_token (quoteRaw s) [] s 0).
    + now apply quoteRaw_eol.
    + unfold initial. rewrite quoteRaw_flat. now rewrite run_raw.
    + lia.
Qed.

Lemma candidates_read_back_witness :
  split (quoteSingle (runes "it's")) = ([runes "it's"], None)
  /\ split (quoteDouble (runes "it's")) = ([runes "it's"], None)
  /\ ((2 <= length (quoteRaw (runes "it's")))%nat
      -> split (quoteRaw (runes "it's")) = ([runes "it's"], None)).
Proof.
  apply candidates_read_back. vm_compute. lia.
Defined.

(** ** Length and choice of [Quote] *)

Lemma countRunes_cons (f : rune -> bool) (r : rune) (s : gostring) :
  countRunes f (r :: s) = (if f r then 1 else 0) + countRunes f s.
Proof.
  unfold countRunes. cbn [filter]. destruct (f r); cbn [length]; lia.
Qed.

Lemma countRunes_nonneg (f : rune -> bool) (s : gostring) : 0 <= countRunes f s.
Proof. unfold countRunes. lia. Qed.

Lemma len_quoteRaw (s : gostring) :
  len (quoteRaw s) = len s + countRunes needsEscape s.
Proof.
  rewrite quoteRaw_flat. induction s as [|r s IH]; [reflexivity|].
  cbn [flat_map]. rewrite len_app, IH, countRunes_cons. unfold rawOf.
  destruct (needsEscape r); cbn [len]; change (runeWidth esc) with 1; lia.
Qed.

Lemma len_quoteSingle (s : gostring) :
  len (quoteSingle s) = len s + 2 + 3 * countRunes (fun r => r =? sqt) s.
Proof.
  rewrite quoteSingle_flat. cbn [len]. rewrite len_app. cbn [len].
  change (runeWidth sqt) with 1.
  enough (len (flat_map singleOf s) = len s + 3 * countRunes (fun r => r =? sqt) s)
    by lia.
  induction s as [|r s IH]; [reflexivity|].
  cbn [flat_map]. rewrite len_app, IH, countRunes_cons. unfold singleOf.
  destruct (r =? sqt) eqn:Er.
  - rune_cases. cbn [len]. change (runeWidth sqt) with 1.
    change (runeWidth esc) with 1. lia.
  - cbn [len]. lia.
Qed.

Lemma len_quoteDouble (s : gostring) :
  len (quoteDouble s) = len s + 2 + countRunes doubleEscaped s.
Proof.
  rewrite quoteDouble_flat. cbn [len]. rewrite len_app. cbn [len].
  change (runeWidth dqt) with 1.
  enough (len (flat_map doubleOf s) = len s + countRunes doubleEscaped s) by lia.
  induction s as [|r s IH]; [reflexivity|].
  cbn [flat_map]. rewrite len_app, IH, countRunes_cons. unfold doubleOf, doubleEscaped.
  destruct ((r =? dqt) || (r =? esc)); cbn [len]; change (runeWidth esc) with 1; lia.
Qed.

Lemma len_Quote_min (s : gostring) :
  s <> [] ->
  len (Quote s)
  = Z.min (len (quoteRaw s)) (Z.min (len (quoteSingle s)) (len (quoteDouble s))).
Proof.
  intros Hne. unfold Quote.
  replace (len s =? 0) with false
    by (symmetry; apply Z.eqb_neq; intros F; apply len_zero_iff in F; contradiction).
  destruct (Z.ltb_spec (len (quoteRaw s)) (len (quoteDouble s)));
    [ destruct (Z.ltb_spec (len (quoteSingle s)) (len (quoteRaw s)))
    | destruct (Z.ltb_spec (len (quoteSingle s)) (len (quoteDouble s))) ]; lia.
Qed.

(** X7: for a non-empty token [Quote] returns a shortest of its three
    candidates: its length in bytes is the least of the three lengths. *)
Theorem Quote_shortest (s : gostring) :
  s <> [] ->
  len (Quote s) <= len (quoteRaw s)
  /\ len (Quote s) <= len (quoteSingle s)
  /\ len (Quote s) <= len (quoteDouble s)
  /\ (Quote s = quoteRaw s \/ Quote s = quoteSingle s \/ Quote s = quoteDouble s).
Proof.
  intros Hne. rewrite (len_Quote_min s Hne). repeat split; try lia.
  destruct (Quote_cases s) as [[-> _] | [_ H]]; [contradiction | exact H].
Qed.

Lemma Quote_shortest_witness :
  len (Quote (runes "a 'b'")) <= len (quoteRaw (runes "a 'b'"))
  /\ len (Quote (runes "a 'b'")) <= len (quoteSingle (runes "a 'b'"))
  /\ len (Quote (runes "a 'b'")) <= len (quoteDouble (runes "a 'b'"))
  /\ (Quote (runes "a 'b'") = quoteRaw (runes "a 'b'")
      \/ Quote (runes "a 'b'") = quoteSingle (runes "a 'b'")
      \/ Quote (runes "a 'b'") = quoteDouble (runes "a 'b'")).
Proof. apply Quote_shortest. discriminate. Defined.

Lemma len_Quote_closed (s : gostring) :
  s <> [] ->
  len (Quote s)
  = len s + Z.min (countRunes needsEscape s)
              (Z.min (2 + 3 * countRunes (fun r => r =? sqt) s)
                     (2 + countRunes doubleEscaped s)).
Proof.
  intros Hne.
  rewrite (len_Quote_min s Hne), len_quoteRaw, len_quoteSingle, len_quoteDouble.
  lia.
Qed.

(** X8: the cost of quoting.  The encoding of a non-empty token is longer
    than the token by the least of: one byte per whitespace, quote or
    backslash; two bytes plus three per single quote; two bytes plus one
    per double quote or backslash.  It is never shorter than the token. *)
Theorem Quote_overhead (s : gostring) :
  s <> [] ->
  len (Quote s)
  = len s + Z.min (countRunes needsEscape s)
              (Z.min (2 + 3 * countRunes (fun r => r =? sqt) s)
                     (2 + countRunes doubleEscaped s))
  /\ len s <= len (Quote s).
Proof.
  intros Hne. rewrite (len_Quote_closed s Hne).
  pose proof (countRunes_nonneg needsEscape s).
  pose proof (countRunes_nonneg (fun r => r =? sqt) s).
  pose proof (countRunes_nonneg doubleEscaped s).
  split; lia.
Qed.

Lemma Quote_overhead_witness :
  len (Quote (runes "a 'b'"))
  = len (runes "a 'b'")
    + Z.min (countRunes needsEscape (runes "a 'b'"))
        (Z.min (2 + 3 * countRunes (fun r => r =? sqt) (runes "a 'b'"))
               (2 + countRunes doubleEscaped (runes "a 'b'")))
  /\ len (runes "a 'b'") <= len (Quote (runes "a 'b'")).
Proof. apply Quote_overhead. discriminate. Defined.

Lemma countRunes_zero (f : rune -> bool) (s : gostring) :
  countRunes f s = 0 <-> forallb (fun r => negb (f r)) s = true.
Proof.
  induction s as [|r s IH]; [split; reflexivity|].
  rewrite countRunes_cons. cbn [forallb].
  pose proof (countRunes_nonneg f s). destruct (f r); cbn [negb andb].
  - split; [lia | discriminate].
  - rewrite <- IH. split; lia.
Qed.

Lemma quoteRaw_plain (s : gostring) :
  forallb plain s = true -> quoteRaw s = s.
Proof.
  rewrite quoteRaw_flat. induction s as [|r s IH]; [reflexivity|].
  cbn [forallb flat_map]. intros H. apply andb_true_iff in H. destruct H as [Hr Hs].
  unfold plain in Hr. apply negb_true_iff in Hr. unfold rawOf at 1. rewrite Hr.
  cbn [app]. f_equal. now apply IH.
Qed.

(** X9: [Quote] returns a token unchanged exactly when the token is not
    empty and holds no whitespace, no quote and no backslash. *)
Theorem Quote_unchanged_iff (s : gostring) :
  Quote s = s <-> s <> [] /\ forallb plain s = true.
Proof.
  split.
  - intros E. assert (Hne : s <> []) by (intros ->; discriminate E).
    split; [exact Hne|].
    pose proof (len_Quote_closed s Hne) as Hlen. rewrite E in Hlen.
    pose proof (countRunes_nonneg needsEscape s).
    pose proof (countRunes_nonneg (fun r => r =? sqt) s).
    pose proof (countRunes_nonneg doubleEscaped s).
    apply (countRunes_zero needsEscape). lia.
  - intros [Hne Hp].
    assert (Hc : countRunes needsEscape s = 0) by now apply countRunes_zero.
    pose proof (len_quoteRaw s) as Lr. pose proof (len_quoteSingle s) as Ls.
    pose proof (len_quoteDouble s) as Ld.
    pose proof (countRunes_nonneg (fun r => r =? sqt) s).
    pose proof (countRunes_nonneg doubleEscaped s).
    unfold Quote.
    replace (len s =? 0) with false
      by (symmetry; apply Z.eqb_neq; intros F; apply len_zero_iff in F; contradiction).
    replace (len (quoteRaw s) <? len (quoteDouble s)) with true
      by (symmetry; apply Z.ltb_lt; lia).
    replace (len (quoteSingle s) <? len (quoteRaw s)) with false
      by (symmetry; apply Z.ltb_ge; lia).
    now apply quoteRaw_plain.
Qed.

(** X10: [Quote] is injective on tokens without U+0000: two different
    tokens never get the same encoding. *)
Theorem Quote_injective (s t : gostring) :
  ~ In eol s -> ~ In eol t -> Quote s = Quote t -> s = t.
Proof.
  intros Hs Ht E.
  pose proof (run_Quote s 0 [] [] 0 Hs) as Rs.
  pose proof (run_Quote t 0 [] [] 0 Ht) as Rt.
  rewrite E, Rt in Rs. now injection Rs as ->.
Qed.

Lemma Quote_injective_witness : runes "a b" = [97; sp; 98].
Proof.
  apply Quote_injective; [vm_compute; lia | vm_compute; lia | reflexivity].
Defined.

(** ** Executors *)

Section Executors.
Variable W : Type.
Variable CombinedOutput :
  gostring -> list gostring -> W -> (gostring * option Exec.cmdError) * W.
Variable Cause : Error -> Exec.cmdError -> Error.
Variable Args : ErrorKind -> Z -> ErrorKind.
Variable cb : callback W.

Let local : Exec.Executor W := Exec.NewLocalExecutor CombinedOutput Cause.
Let mock : Exec.Executor W := Exec.MockExecutor_Executor (NewMockExecutor cb).

(** X11: with the local executor as with a mock as [DefaultExecutor],
    running the line that [GetCommandLine] writes for a command and its
    arguments is running the command with these arguments, for [RunLine]
    and [Run] as for [ShouldRunLine] and [ShouldRun]; no token may hold
    U+0000 and the command may not be a single unescaped codepoint. *)
Theorem RunLine_GetCommandLine (c : gostring) (args : list gostring) (w : W) :
  ~ In eol c ->
  Forall (fun arg => ~ In eol arg) args ->
  (forall r, c = [r] -> plain r = false) ->
  Exec.RunLine local (GetCommandLine c args) w = Exec.Run local c args w
  /\ Exec.RunLine mock (GetCommandLine c args) w = Exec.Run mock c args w
  /\ Exec.ShouldRunLine Args local (GetCommandLine c args) w
     = Exec.ShouldRun Args local c args w
  /\ Exec.ShouldRunLine Args mock (GetCommandLine c args) w
     = Exec.ShouldRun Args mock c args w.
Proof.
  intros Hc Hargs Hplain.
  assert (HP : Parse (GetCommandLine c args) = (c, args, None)).
  { rewrite Parse_of_split, split_GetCommandLine by assumption. reflexivity. }
  assert (Hl : Exec.RunLine local (GetCommandLine c args) w = Exec.Run local c args w).
  { unfold Exec.RunLine, Exec.Run, local, Exec.NewLocalExecutor.
    cbn [Exec.Executor_RunLine Exec.Executor_Run]. unfold Exec.runLine.
    now rewrite HP. }
  assert (Hm : Exec.RunLine mock (GetCommandLine c args) w = Exec.Run mock c args w).
  { unfold Exec.RunLine, Exec.Run, mock, Exec.MockExecutor_Executor.
    cbn [Exec.Executor_RunLine Exec.Executor_Run].
    unfold MockExecutor_RunLine, MockExecutor_Run. now rewrite HP. }
  refine (conj Hl (conj Hm (conj _ _))).
  - unfold Exec.ShouldRunLine, Exec.ShouldRun. now rewrite Hl.
  - unfold Exec.ShouldRunLine, Exec.ShouldRun. now rewrite Hm.
Qed.

(** X12: a line that [Parse] rejects starts no process and calls no
    callback: with either executor [RunLine] returns the empty output, the
    code 0 and the parse error, [ShouldRunLine] the empty output and the
    parse error, and the world is as before. *)
Theorem RunLine_parse_error (line : gostring) (err : Error) (w : W) :
  snd (Parse line) = Some err ->
  Exec.RunLine local line w = (([], 0, Some err), w)
  /\ Exec.RunLine mock line w = (([], 0, Some err), w)
  /\ Exec.ShouldRunLine Args local line w = (([], Some err), w)
  /\ Exec.ShouldRunLine Args mock line w = (([], Some err), w).
Proof.
  intros HP.
  assert (Hl : Exec.RunLine local line w = (([], 0, Some err), w)).
  { unfold Exec.RunLine, local, Exec.NewLocalExecutor.
    cbn [Exec.Executor_RunLine]. unfold Exec.runLine.
    destruct (Parse line) as [[c0 args0] [e|]]; cbn [snd] in HP; [|discriminate].
    now injection HP as ->. }
  assert (Hm : Exec.RunLine mock line w = (([], 0, Some err), w)).
  { unfold Exec.RunLine, mock, Exec.MockExecutor_Executor.
    cbn [Exec.Executor_RunLine]. unfold MockExecutor_RunLine.
    destruct (Parse line) as [[c0 args0] [e|]]; cbn [snd] in HP; [|discriminate].
    now injection HP as ->. }
  refine (conj Hl (conj Hm (conj _ _))).
  - unfold Exec.ShouldRunLine. now rewrite Hl.
  - unfold Exec.ShouldRunLine. now rewrite Hm.
Qed.

(** X13: [ShouldRun] on the local executor, by the outcome of the process.
    Without error, or with an exit status 0, it returns the output and no
    error; with an exit status other than 0 it returns the output and the
    return-code error made for that status; with any other error it
    returns the run error caused by it and the empty string, the output of
    the process being dropped. *)
Theorem ShouldRun_local (c : gostring) (args : list gostring) (w : W) :
  let outcome := CombinedOutput c args w in
  let output := fst (fst outcome) in
  let w' := snd outcome in
  Exec.ShouldRun Args local c args w =
    match snd (fst outcome) with
    | None => ((output, None), w')
    | Some (Exec.ExitError (Some status)) =>
        if status =? 0 then ((output, None), w')
        else ((output, Some (Make (Args ErrReturnCode status))), w')
    | Some e => (([], Some (Cause (Make ErrRun) e)), w')
    end.
Proof.
  cbv zeta. unfold Exec.ShouldRun, Exec.Run, local, Exec.NewLocalExecutor.
  cbn [Exec.Executor_Run]. unfold Exec.run.
  destruct (CombinedOutput c args w) as [[output [e|]] w']; cbn [fst snd].
  - destruct e as [[status|]|]; try reflexivity.
    destruct (status =? 0); reflexivity.
  - reflexivity.
Qed.

End Executors.

Lemma RunLine_GetCommandLine_witness :
  Exec.RunLine (Exec.NewLocalExecutor demoCombinedOutput demoCause)
    (GetCommandLine (runes "ls") [runes "my dir"; []]) []
  = Exec.Run (Exec.NewLocalExecutor demoCombinedOutput demoCause)
      (runes "ls") [runes "my dir"; []] []
  /\ Exec.RunLine (Exec.MockExecutor_Executor (NewMockExecutor demoCallback))
       (GetCommandLine (runes "ls") [runes "my dir"; []]) []
     = Exec.Run (Exec.MockExecutor_Executor (NewMockExecutor demoCallback))
         (runes "ls") [runes "my dir"; []] []
  /\ Exec.ShouldRunLine demoArgs (Exec.NewLocalExecutor demoCombinedOutput demoCause)
       (GetCommandLine (runes "ls") [runes "my dir"; []]) []
     = Exec.ShouldRun demoArgs (Exec.NewLocalExecutor demoCombinedOutput demoCause)
         (runes "ls") [runes "my dir"; []] []
  /\ Exec.ShouldRunLine demoArgs
       (Exec.MockExecutor_Executor (NewMockExecutor demoCallback))
       (GetCommandLine (runes "ls") [runes "my dir"; []]) []
     = Exec.ShouldRun demoArgs
         (Exec.MockExecutor_Executor (NewMockExecutor demoCallback))
         (runes "ls") [runes "my dir"; []] [].
Proof.
  apply (RunLine_GetCommandLine demoWorld demoCombinedOutput demoCause demoArgs
           demoCallback (runes "ls") [runes "my dir"; []] []).
  - vm_compute. lia.
  - repeat constructor; vm_compute; lia.
  - intros r H. discriminate H.
Defined.

Lemma RunLine_parse_error_witness :
  Exec.RunLine (Exec.NewLocalExecutor demoCombinedOutput demoCause)
    (runes "ls 'my dir") []
  = (([], 0, Some errUnexpectedEnd), [])
  /\ Exec.RunLine (Exec.MockExecutor_Executor (NewMockExecutor demoCallback))
       (runes "ls 'my dir") []
     = (([], 0, Some errUnexpectedEnd), [])
  /\ Exec.ShouldRunLine demoArgs (Exec.NewLocalExecutor demoCombinedOutput demoCause)
       (runes "ls 'my dir") []
     = (([], Some errUnexpectedEnd), [])
  /\ Exec.ShouldRunLine demoArgs
       (Exec.MockExecutor_Executor (NewMockExecutor demoCallback))
       (runes "ls 'my dir") []
     = (([], Some errUnexpectedEnd), []).
Proof.
  apply (RunLine_parse_error demoWorld demoCombinedOutput demoCause demoArgs
           demoCallback (runes "ls 'my dir") errUnexpectedEnd []).
  reflexivity.
Defined.

(** ** Whitespace between and before tokens *)

Lemma moved_nil (k : Z) ps s e b p :
  moved k [] (mkScanner ps s e b p) = mkScanner ps s e b (p + k).
Proof. reflexivity. Qed.

(** X14: outside quotes and not after a backslash, a run of whitespace
    counts as one: a second whitespace right after a first one changes
    nothing in the result of [Parse], error or not. *)
Theorem Parse_whitespace_collapses (l1 l2 : gostring) (r r' : rune) :
  IsSpace r = true -> IsSpace r' = true ->
  state (scan l1) = parseDefault -> escape (scan l1) = false ->
  Parse (l1 ++ r :: r' :: l2) = Parse (l1 ++ r :: l2).
Proof.
  intros Hr Hr' Hs He.
  destruct (IsSpace_not_special r' Hr') as (_ & _ & _ & E0').
  rewrite !Parse_of_split, !split_unfold, !hasEol_app.
  assert (Hz : hasEol (r :: r' :: l2) = hasEol (r :: l2)).
  { unfold hasEol. cbn [existsb]. now rewrite E0'. }
  rewrite Hz. destruct (hasEol l1 || hasEol (r :: l2)); [reflexivity|]. cbv zeta.
  rewrite !run_app. unfold scan in Hs, He.
  destruct (run 0 l1 initial) as [ps s e b p]. cbn [state escape] in Hs, He. subst s e.
  cbn [run]. rewrite (switch_boundary _ _ _ _ r) by (rewrite Hr; reflexivity).
  set (n := 0 + Z.of_nat (length l1)).
  assert (Hstep : forall ps' b',
            run (n + 1 + 1) l2
              (switch (n + 1) r' (mkScanner ps' parseDefault false b' n))
            = moved 1 [] (run (n + 1) l2 (mkScanner ps' parseDefault false b' n))).
  { intros ps' b'. rewrite switch_boundary by (rewrite Hr'; reflexivity).
    replace (n <? n + 1 - 1) with false by (symmetry; apply Z.ltb_ge; lia).
    rewrite <- run_moved. reflexivity. }
  assert (Hlen : Z.of_nat (length (l1 ++ r :: r' :: l2))
                 = Z.of_nat (length (l1 ++ r :: l2)) + 1)
    by (rewrite !length_app; cbn [length]; lia).
  rewrite Hlen.
  destruct (p <? n - 1); rewrite Hstep;
    match goal with
    | |- context [moved 1 [] ?st] =>
        rewrite (switch_moved 1 [] _ eol st);
        destruct (switch (Z.of_nat (length (l1 ++ r :: l2))) eol st);
        destruct st as [ps1 s1 e1 b1 p1]
    end; reflexivity.
Qed.

Lemma Parse_whitespace_collapses_witness :
  Parse (runes "cmd" ++ sp :: 9 :: runes "-d  x")
  = Parse (runes "cmd" ++ sp :: runes "-d  x").
Proof.
  apply Parse_whitespace_collapses; reflexivity.
Defined.

Lemma switch_phase (i i' : Z) (r : rune) (st st' : scanner) :
  phase st = phase st' -> phase (switch i r st) = phase (switch i' r st').
Proof.
  destruct st as [ps s e b p], st' as [ps' s' e' b' p']. unfold phase.
  cbn [state escape]. intros [= <- <-].
  unfold switch, flush, set_partStart, set_state, set_escape, set_sb, WriteRune.
  cbn [parts state escape sb partStart].
  destruct s, e;
    repeat match goal with
    | |- context [if ?c then _ else _] => destruct c
    end; reflexivity.
Qed.

Lemma run_phase (rs : list rune) : forall i i' st st',
  phase st = phase st' -> phase (run i rs st) = phase (run i' rs st').
Proof.
  induction rs as [|r rs IH]; intros i i' st st' H; [exact H|].
  cbn [run]. apply IH. now apply switch_phase.
Qed.

(** X15: whitespace before a line changes nothing in the result of
    [Parse], error or not, unless the line starts with a token of one
    codepoint, which [split] emits only behind a whitespace. *)
Theorem Parse_leading_whitespace (line : gostring) (r : rune) :
  IsSpace r = true ->
  startsWithShortToken line = false ->
  Parse (r :: line) = Parse line.
Proof.
  intros Hr Hshort. destruct (IsSpace_not_special r Hr) as (_ & _ & _ & E0).
  pose proof (tokens_refine_opened line Hshort) as Htok.
  rewrite <- partStart_minus_one_refines, tokens_unfold, run_app in Htok.
  cbn [run] in Htok. rewrite Z.add_0_l in Htok. unfold scan in Htok.
  rewrite !Parse_of_split, !split_unfold.
  replace (hasEol (r :: line)) with (hasEol line)
    by (unfold hasEol; cbn [existsb]; now rewrite E0).
  destruct (hasEol line); [reflexivity|]. cbv zeta.
  unfold initial at 1 2 3. cbn [run].
  rewrite switch_boundary by (rewrite Hr; reflexivity).
  change (0 <? 0 - 1) with false. cbv iota.
  change (mkScanner [] parseDefault false [] 0)
    with (moved 1 [] (mkScanner [] parseDefault false [] (-1))).
  rewrite run_moved.
  pose proof (run_phase line 0 0 (mkScanner [] parseDefault false [] (-1)) initial
                eq_refl) as Hph.
  replace (Z.of_nat (length (r :: line))) with (Z.of_nat (length line) + 1)
    by (cbn [length]; lia).
  rewrite switch_moved.
  destruct (run 0 line (mkScanner [] parseDefault false [] (-1))) as [ps s e b p].
  destruct (run 0 line initial) as [ps0 s0 e0 b0 p0].
  unfold phase in Hph. cbn [state escape] in Hph. injection Hph as -> ->.
  unfold moved. cbn [state escape parts app].
  destruct (negb (isDefault s0) || e0); [reflexivity|].
  rewrite <- Htok.
  destruct (switch (Z.of_nat (length line)) eol (mkScanner ps0 s0 e0 b0 p0)).
  reflexivity.
Qed.

Lemma Parse_leading_whitespace_witness :
  Parse (sp :: runes "cmd -d") = Parse (runes "cmd -d").
Proof.
  apply Parse_leading_whitespace; reflexivity.
Defined.
